(** * Verification of the webhook relay [src/subscriptions.js]

    A shallow embedding of the Express application that receives Facebook
    subscription pushes, authenticates them and fans every item out to the
    configured downstream services.

    - JavaScript values of the JSON fragment are the inductive [value]
      (numbers are the integers); objects are association lists in key
      order, as [Object.keys] lists them.
    - A middleware is a function from the request to what it did: it sent a
      response, it called [next()], or it threw.
    - A promise created by [pushItem] is a [dispatch]: rejected by its
      executor, rejected through the promise of its transport function, or
      waiting for the callback of the outbound call it issued.
      [Promise.all] is the state machine [pall]; the environment chooses the
      order in which the outbound calls complete. *)

From Stdlib Require Import ZArith Lia Bool.
From stdpp Require Import base list strings option pretty.

Open Scope string_scope.
Open Scope list_scope.
Open Scope nat_scope.

(** ** JavaScript values *)

#[warnings="-register-all"]
Inductive value :=
| VUndef
| VNull
| VBool (b : bool)
| VNum (n : Z)
| VStr (s : string)
| VArr (l : list value)
| VObj (o : list (string * value)).

(** A parsed JSON object: its own enumerable properties, in order. *)
Definition obj := list (string * value).

(** [o[k]]: the first binding of [k], [undefined] when there is none. *)
Fixpoint get (k : string) (o : obj) : value :=
  match o with
  | [] => VUndef
  | (k', v) :: o' => if String.eqb k k' then v else get k o'
  end.

(** [Object.keys(o)]. *)
Definition keys (o : obj) : list string := map fst o.

(** ToBoolean, as [if (x)] and [!x] apply it. *)
Definition truthy (v : value) : bool :=
  match v with
  | VUndef | VNull => false
  | VBool b => b
  | VNum n => negb (n =? 0)%Z
  | VStr s => negb (String.eqb s "")
  | VArr _ | VObj _ => true
  end.

(** [v === s] for a string [s]: only a string is strictly equal to it. *)
Definition strict_eq_str (v : value) (s : string) : bool :=
  match v with
  | VStr t => String.eqb t s
  | _ => false
  end.

(** [fields.indexOf(v) !== -1] on an array of strings. *)
Definition indexOf_found (fields : list string) (v : value) : bool :=
  existsb (strict_eq_str v) fields.

(** [a == b] on two values that are each a string or [undefined]. *)
Definition loose_eq (a b : option string) : bool :=
  match a, b with
  | None, None => true
  | Some x, Some y => String.eqb x y
  | _, _ => false
  end.

(** ** Requests, responses, middleware *)

(** Rejection reasons and thrown values. *)
Inductive reason :=
| Message (s : string)      (* a string passed to [reject] *)
| TypeError                 (* a TypeError raised by the runtime *)
| Remote (e : value).       (* the error reported by a transport *)

Inductive payload :=
| Text (s : string)
| Empty
| Failure (r : reason).

Record response := Response { status : Z; sent : payload }.

(** [res.send(x)] for [x] a string or [undefined]. *)
Definition send (x : option string) : payload :=
  match x with
  | Some s => Text s
  | None => Empty
  end.

(** One element of [body.entry].  [changes] and [messaging] are arrays of
    objects or absent; [id] and [time] are [undefined] when absent. *)
Record entry := Entry {
  id : value;
  time : value;
  changes : option (list obj);
  messaging : option (list obj)
}.

(** The parsed body: [body.object] is a string or absent, [body.entry] an
    array. *)
Record envelope := Envelope {
  object : option string;
  entries : list entry
}.

(** The parts of the Express request the application reads.  Query
    parameters and headers are strings or absent; [rawBody] is what the
    [verify] callback of the JSON body parser stored, and it stores nothing
    when the buffer is empty ([if (buf && buf.length)]) or when the parser
    does not read the body.  A string stands for its bytes. *)
Record request := Request {
  hub_mode : option string;
  hub_verify_token : option string;
  hub_challenge : option string;
  x_hub_signature : option string;
  rawBody : option string;
  body : envelope
}.

Inductive log :=
| Info (s : string)
| Warn (s : string)
| Error (s : string).

(** What one middleware does with a request. *)
Inductive step :=
| Next
| Respond (r : response)
| Throw (e : reason).

(** *** Body capture *)

Section BodyCapture.

(** [buf.toString(encoding)]. *)
Variable toString : string -> string -> string.

(** The [verify] callback given to [bodyParser.json]: [buf] is the raw
    buffer, absent when there is none; [encoding || "utf8"] falls back on
    an absent or empty encoding. *)
Definition verify (req : request) (buf : option string)
           (encoding : option string) : request :=
  match buf with
  | Some b =>
      if negb (Nat.eqb (String.length b) 0) then
        let enc := match encoding with
                   | Some e => if negb (String.eqb e "") then e else "utf8"
                   | None => "utf8"
                   end in
        Request (hub_mode req) (hub_verify_token req) (hub_challenge req)
                (x_hub_signature req) (Some (toString b enc)) (body req)
      else req
  | None => req
  end.

End BodyCapture.

(** *** validateRequest *)

Definition validateRequest (req : request) : step * list log :=
  if loose_eq (hub_mode req) (Some "subscribe")
     || match x_hub_signature req with
        | Some s => negb (String.eqb s "")
        | None => false
        end
  then (Next, [])
  else (Respond (Response 200 (Text "pong")),
        [Warn "Invalid request, returning 200 anyway"]).

(** *** authorizeFacebook *)

Definition authorizeFacebook (fbVerifyToken : option string) (req : request)
  : step * list log :=
  if loose_eq (hub_mode req) (Some "subscribe") then
    let valid := loose_eq (hub_verify_token req) fbVerifyToken in
    if valid then
      (Respond (Response 200 (send (hub_challenge req))),
       [Info "Authorizing subscription through hub token"])
    else
      (Respond (Response 400 (Text "Invalid token")),
       [Warn "Unauthorized authorization request"])
  else (Next, []).

(** *** verifyHubSignature *)

Section Signature.

(** [crypto.createHmac("sha1", key).update(data).digest("hex")]. *)
Variable hmac_sha1_hex : string -> string -> string.

(** [hmac.update(req.rawBody)] raises a TypeError when [rawBody] was
    never set: [update] accepts a string or a buffer only. *)
Definition verifyHubSignature (clientSecret : string) (req : request)
  : step * list log :=
  match x_hub_signature req with
  | Some signature =>
      match rawBody req with
      | None => (Throw TypeError, [])
      | Some raw =>
          let expectedSignature := "sha1=" +:+ hmac_sha1_hex clientSecret raw in
          if negb (String.eqb expectedSignature signature) then
            (Respond (Response 400 (Text "Invalid signature")),
             [Warn "Invalid signature from hub challenge"])
          else (Next, [])
      end
  | None => (Next, [])
  end.

End Signature.

(** ** Subscription filter *)

(** [MESSAGE_FIELD_MAP[field]] when it is a string.  For any other name the
    lookup yields [undefined] or a non-string inherited from
    [Object.prototype], and neither is [===] to a key of an item. *)
Definition MESSAGE_FIELD_MAP (field : string) : option string :=
  if String.eqb field "messages" then Some "message"
  else if String.eqb field "message_deliveries" then Some "delivery"
  else if String.eqb field "messaging_optins" then Some "optin"
  else if String.eqb field "messaging_postbacks" then Some "postback"
  else if String.eqb field "message_reads" then Some "read"
  else None.

(** [fields.indexOf(key) !== -1] on the translated array. *)
Definition translated_has (fields : list (option string)) (key : string) : bool :=
  existsb (fun f => match f with
                    | Some k => String.eqb key k
                    | None => false
                    end) fields.

Definition validateFields (serviceFields : list string) (item : obj) : bool :=
  if truthy (get "field" item) then
    indexOf_found serviceFields (get "field" item)
  else if truthy (get "sender" item) then
    let fields := map MESSAGE_FIELD_MAP serviceFields in
    existsb (translated_has fields) (keys item)
  else false.

(** How the code classifies an item: the tests [item.field] and
    [item.sender], in the order [validateFields] makes them. *)
Definition isChange (item : obj) : bool := truthy (get "field" item).

Definition isMessagingEvent (item : obj) : bool :=
  negb (truthy (get "field" item)) && truthy (get "sender" item).

(** ** Outbound envelope *)

Definition getBody (facebookId time : value) (item : obj) : value :=
  let entry0 := [("time", time); ("id", facebookId)] in
  let entry1 :=
    if truthy (get "field" item)
    then entry0 ++ [("changes", VArr [VObj item])] else entry0 in
  let entry2 :=
    if truthy (get "sender" item)
    then entry1 ++ [("messaging", VArr [VObj item])] else entry1 in
  VObj [("object", VStr "page"); ("entry", VArr [VObj entry2])].

(** ** Services and dispatch *)

Record service := Service {
  type : option string;
  fields : option (list string);
  test : bool;
  token : option string;
  url : string;
  methodName : string
}.

(** [config.get("services")], in the order [for ... in] enumerates it. *)
Definition services := list (string * service).

(** An outbound call handed to a transport. *)
Inductive call :=
| DdpCall (client : string) (method : string) (params : list value)
| HttpPost (target : string) (data : value).

(** A promise pushed by [pushItem].  [Immediate]: its executor rejected it,
    by [reject] or by throwing.  [Deferred]: the promise of the transport
    function was rejected when built, and the [then]/[catch] chain rejects
    the pushed promise two microtasks later.  [Issued]: it waits for the
    callback of the call it issued for service [name]. *)
Inductive dispatch :=
| Immediate (r : reason)
| Deferred (r : reason)
| Issued (c : call) (name : string) (suppress : bool).

Definition opt_value (x : option string) : value :=
  match x with
  | Some s => VStr s
  | None => VUndef
  end.

(** Names every object literal inherits from [Object.prototype]:
    [push[name]] is truthy for them although [push] only defines [ddp] and
    [http]. *)
Definition Object_prototype : list string :=
  ["constructor"; "__defineGetter__"; "__defineSetter__"; "hasOwnProperty";
   "__lookupGetter__"; "__lookupSetter__"; "isPrototypeOf";
   "propertyIsEnumerable"; "toString"; "valueOf"; "__proto__";
   "toLocaleString"].

Definition inherited (name : string) : bool :=
  existsb (String.eqb name) Object_prototype.

Definition not_supported : reason := Message "Service type not supported".

(** The URL [Push.http] posts to: [service.url], with the token appended
    when [service.token] is truthy. *)
Definition http_target (s : service) : string :=
  match token s with
  | Some t => if negb (String.eqb t "") then url s +:+ "?token=" +:+ t else url s
  | None => url s
  end.

Section Push.

(** Names with a connected client in [app.get("ddpClients")]. *)
Variable ddpClients : list string.

(** Without a client, [client.call] throws inside the executor of the
    promise [Push.ddp] returns. *)
Definition Push_ddp (name : string) (s : service)
           (facebookId : value) (item : obj) (time : value) : dispatch :=
  if existsb (String.eqb name) ddpClients then
    Issued (DdpCall name (methodName s)
              [VObj [("token", opt_value (token s));
                     ("facebookAccountId", facebookId);
                     ("data", getBody facebookId time item)]])
           name (test s)
  else Deferred TypeError.

Definition Push_http (name : string) (s : service)
           (facebookId : value) (item : obj) (time : value) : dispatch :=
  Issued (HttpPost (http_target s) (getBody facebookId time item))
         name (test s).

(** The promise [pushItem] builds for one service: [push[service.type]]
    is looked up on the object [Push] returns. *)
Definition push (name : string) (s : service)
           (facebookId : value) (item : obj) (time : value) : dispatch :=
  match type s with
  | Some t =>
      if String.eqb t "ddp" then Push_ddp name s facebookId item time
      else if String.eqb t "http" then Push_http name s facebookId item time
      else if inherited t then Immediate TypeError
      else Immediate not_supported
  | None => Immediate not_supported
  end.

(** The condition guarding [promises.push] in [pushItem]. *)
Definition matches (s : service) (item : obj) : bool :=
  match fields s with
  | None => true
  | Some fs => Nat.eqb (length fs) 0 || validateFields fs item
  end.

Fixpoint pushItem (svcs : services) (facebookId : value) (item : obj)
         (time : value) : list dispatch :=
  match svcs with
  | [] => []
  | (serviceName, s) :: rest =>
      if matches s item
      then push serviceName s facebookId item time
           :: pushItem rest facebookId item time
      else pushItem rest facebookId item time
  end.

(** The [forEach] over one entry; one row of promises per item. *)
Definition pushEntry (svcs : services) (e : entry) : list (list dispatch) :=
  match changes e with
  | Some items => map (fun item => pushItem svcs (id e) item (time e)) items
  | None =>
      match messaging e with
      | Some items => map (fun item => pushItem svcs (id e) item (time e)) items
      | None => []
      end
  end.

Definition pushAll (svcs : services) (es : list entry) : list (list dispatch) :=
  flat_map (pushEntry svcs) es.

End Push.

(** The calls the transports received, in the order they were issued. *)
Definition issued (row : list dispatch) : list call :=
  flat_map (fun d => match d with
                     | Issued c _ _ => [c]
                     | Immediate _ | Deferred _ => []
                     end) row.

Definition calls (table : list (list dispatch)) : list call :=
  flat_map issued table.

(** ** Promises *)

(** How a transport answers one call.  For [ddp], [Succeeds res] is the
    callback called with no error and [Fails err] the callback called with
    [err] alone; for [http], they are the promise of [axios.post] fulfilled
    and rejected. *)
Inductive outcome :=
| Succeeds (res : value)
| Fails (err : value).

Inductive result :=
| Fulfilled (v : value)
| Rejected (r : reason).

(** The error branch shared by both transports: [service.test] turns the
    failure into a logged success. *)
Definition on_error (name : string) (suppress : bool) (err : value)
  : result * list log :=
  if suppress
  then (Fulfilled VUndef, [Warn (name +:+ " test service errored")])
  else (Rejected (Remote err), []).

(** The callback [(err, res) => ...] of [Push.ddp]. *)
Definition ddp_callback (name : string) (suppress : bool) (err res : value)
  : result * list log :=
  if negb (truthy err) then (Fulfilled res, [])
  else on_error name suppress err.

(** The answer of the transport of call [c], seen by the promise. *)
Definition complete (c : call) (name : string) (suppress : bool) (o : outcome)
  : result * list log :=
  match c, o with
  | DdpCall _ _ _, Succeeds res => ddp_callback name suppress VUndef res
  | DdpCall _ _ _, Fails err => ddp_callback name suppress err VUndef
  | HttpPost _ _, Succeeds res => (Fulfilled res, [])
  | HttpPost _ _, Fails err => on_error name suppress err
  end.

(** The transport of [c] reports [err] as an error: any rejection of
    [axios.post], a truthy [err] in the DDP callback. *)
Definition is_error (c : call) (err : value) : bool :=
  match c with
  | DdpCall _ _ _ => truthy err
  | HttpPost _ _ => true
  end.

(** [Promise.all]: waiting for [remaining] elements, fulfilled, or rejected
    with the reason of the first element that rejected. *)
Inductive pall :=
| Waiting (remaining : nat)
| Done
| Failed (r : reason).

Definition pall_new (n : nat) : pall :=
  match n with
  | O => Done
  | S _ => Waiting n
  end.

Definition resolveElement (p : pall) : pall :=
  match p with
  | Waiting n => if Nat.eqb (n - 1) 0 then Done else Waiting (n - 1)
  | _ => p
  end.

Definition rejectElement (p : pall) (r : reason) : pall :=
  match p with
  | Waiting _ => Failed r
  | _ => p
  end.

Definition notify (p : pall) (r : result) : pall :=
  match r with
  | Fulfilled _ => resolveElement p
  | Rejected e => rejectElement p e
  end.

(** The state of one request after the handler returned: the promise of
    every dispatch ([None] while pending), the [Promise.all] of every
    [pushItem], the [Promise.all] of the handler, the settlements in the
    order they happened, and what was logged. *)
Record batch := Batch {
  table : list (list dispatch);
  settled : list (list (option result));
  perItem : list pall;
  whole : pall;
  order : list (nat * nat * result);
  journal : list log
}.

(** The [then]/[catch] attached to the handler's [Promise.all]. *)
Definition responded (g : batch) : option response :=
  match whole g with
  | Done => Some (Response 200 (Text "OK"))
  | Failed r => Some (Response 500 (Failure r))
  | Waiting _ => None
  end.

(** What the [then]/[catch] of the handler logs when its [Promise.all]
    settles. *)
Definition closing (before after : pall) : list log :=
  match before, after with
  | Waiting _, Done => [Info "Succesfully processed webhook updates"]
  | Waiting _, Failed _ => [Error "Error processing webhook data"]
  | _, _ => []
  end.

(** Promise [j] of item [i] settles with [r]; a promise settles once. *)
Definition deliver (g : batch) (i j : nat) (r : result) (l : list log) : batch :=
  match settled g !! i with
  | Some row =>
      match row !! j with
      | Some None =>
          let p := default Done (perItem g !! i) in
          let p' := notify p r in
          let w' :=
            match p, p' with
            | Waiting _, Done => resolveElement (whole g)
            | Waiting _, Failed e => rejectElement (whole g) e
            | _, _ => whole g
            end in
          Batch (table g)
               (<[i := <[j := Some r]> row]> (settled g))
               (<[i := p']> (perItem g))
               w'
               (order g ++ [(i, j, r)])
               (journal g ++ l ++ closing (whole g) w')
      | _ => g
      end
  | None => g
  end.

(** The transport answers the call of promise [j] of item [i]. *)
Definition callback (g : batch) (i j : nat) (o : outcome) : batch :=
  match table g !! i with
  | Some row =>
      match row !! j with
      | Some (Issued c name suppress) =>
          let '(r, l) := complete c name suppress o in deliver g i j r l
      | _ => g
      end
  | None => g
  end.

(** The promises a selector picks, with their positions and reasons. *)
Fixpoint rejections_row (sel : dispatch -> option reason) (i j : nat)
         (row : list dispatch) : list (nat * nat * reason) :=
  match row with
  | [] => []
  | d :: row' =>
      match sel d with
      | Some r => (i, j, r) :: rejections_row sel i (S j) row'
      | None => rejections_row sel i (S j) row'
      end
  end.

Fixpoint rejections_from (sel : dispatch -> option reason) (i : nat)
         (t : list (list dispatch)) : list (nat * nat * reason) :=
  match t with
  | [] => []
  | row :: t' => rejections_row sel i 0 row ++ rejections_from sel (S i) t'
  end.

Definition at_creation (d : dispatch) : option reason :=
  match d with
  | Immediate r => Some r
  | _ => None
  end.

Definition after_creation (d : dispatch) : option reason :=
  match d with
  | Deferred r => Some r
  | _ => None
  end.

Fixpoint reject_all (g : batch) (l : list (nat * nat * reason)) : batch :=
  match l with
  | [] => g
  | (i, j, r) :: l' => reject_all (deliver g i j (Rejected r) []) l'
  end.

(** The handler's [Promise.all] is told at once of every [pushItem] that
    pushed no promise. *)
Fixpoint skip_empty (w : pall) (t : list (list dispatch)) : pall :=
  match t with
  | [] => w
  | [] :: t' => skip_empty (resolveElement w) t'
  | (_ :: _) :: t' => skip_empty w t'
  end.

(** The state when the handler returns: every promise is pending. *)
Definition fresh (t : list (list dispatch)) : batch :=
  let w := skip_empty (pall_new (length t)) t in
  Batch t
       (map (map (fun _ => None)) t)
       (map (fun row => pall_new (length row)) t)
       w
       []
       (closing (Waiting 1) w).

(** The state once the microtasks have run: the promises rejected by
    their executor have been seen first, in the order they were pushed, then
    those rejected through the chain of a transport promise. *)
Definition start (t : list (list dispatch)) : batch :=
  reject_all (reject_all (fresh t) (rejections_from at_creation 0 t))
             (rejections_from after_creation 0 t).

(** The transports answer, in the order the environment chooses. *)
Fixpoint run (g : batch) (schedule : list (nat * nat * outcome)) : batch :=
  match schedule with
  | [] => g
  | (i, j, o) :: rest => run (callback g i j o) rest
  end.

(** Promises still pending. *)
Fixpoint pending_row (row : list (option result)) : nat :=
  match row with
  | [] => 0
  | None :: row' => S (pending_row row')
  | Some _ :: row' => pending_row row'
  end.

Definition pending (g : batch) : nat :=
  list_sum (map pending_row (settled g)).

(** The reason of the first rejection, in settlement order. *)
Fixpoint first_rejection (l : list (nat * nat * result)) : option reason :=
  match l with
  | [] => None
  | (_, _, Rejected r) :: _ => Some r
  | (_, _, Fulfilled _) :: l' => first_rejection l'
  end.

(** ** The application *)

Inductive stage :=
| ValidateRequest
| AuthorizeFacebook
| VerifyHubSignature
| Handler.

(** How the chain of middleware ends for one request. *)
Inductive ending :=
| Replied (r : response)
| Crashed (e : reason)
| Fanout (cs : list call) (g : batch).

Section App.

Variable hmac_sha1_hex : string -> string -> string.
Variable clientSecret : string.
Variable fbVerifyToken : option string.
Variable svcs : services.
Variable ddpClients : list string.

Definition handler (req : request) : ending * list log :=
  if loose_eq (object (body req)) (Some "page") then
    let t := pushAll ddpClients svcs (entries (body req)) in
    (Fanout (calls t) (start t),
     [Info ("Receiving " +:+ pretty (length (entries (body req)))
            +:+ " entries from Facebook subscription")])
  else (Replied (Response 400 (Text "Bad Request")), []).

Definition middleware : list (stage * (request -> step * list log)) :=
  [(ValidateRequest, validateRequest);
   (AuthorizeFacebook, authorizeFacebook fbVerifyToken);
   (VerifyHubSignature, verifyHubSignature hmac_sha1_hex clientSecret)].

(** [app.use("/", ...)]: each middleware runs when the one before called
    [next()]; the stages that ran are recorded. *)
Fixpoint chain (ms : list (stage * (request -> step * list log)))
         (req : request) : list stage * ending * list log :=
  match ms with
  | [] => let '(e, l) := handler req in ([Handler], e, l)
  | (name, m) :: ms' =>
      match m req with
      | (Next, l) =>
          let '(ran, e, l') := chain ms' req in (name :: ran, e, l ++ l')
      | (Respond r, l) => ([name], Replied r, l)
      | (Throw e, l) => ([name], Crashed e, l)
      end
  end.

Definition app (req : request) : list stage * ending * list log :=
  chain middleware req.

End App.

(** ** Notions used in the statements *)

(** The envelope an outbound call carries: the body of the POST, the
    [data] member of the DDP argument. *)
Definition envelope_of (c : call) : value :=
  match c with
  | HttpPost _ b => b
  | DdpCall _ _ [VObj o] => get "data" o
  | DdpCall _ _ _ => VUndef
  end.

(** [{object: "page", entry: [{time, id, ...extra}]}]. *)
Definition page (facebookId time : value) (extra : obj) : value :=
  VObj [("object", VStr "page");
        ("entry", VArr [VObj ([("time", time); ("id", facebookId)] ++ extra)])].

(** A service [push] hands to a transport: an [http] service, or a [ddp]
    service with a connected client. *)
Definition deliverable (ddpClients : list string) (name : string) (s : service)
  : bool :=
  match type s with
  | Some t =>
      (String.eqb t "ddp" && existsb (String.eqb name) ddpClients)
      || (negb (String.eqb t "ddp") && String.eqb t "http")
  | None => false
  end.

Definition fulfilled (x : option result) : Prop := exists v, x = Some (Fulfilled v).

(** The array of an entry the handler iterates over. *)
Definition entry_items (e : entry) : list obj :=
  match changes e with
  | Some items => items
  | None => default [] (messaging e)
  end.

(** The promise of dispatch [j] of item [i], when there is one. *)
Definition promise_at (g : batch) (i j : nat) : option (option result) :=
  match settled g !! i with
  | Some row => row !! j
  | None => None
  end.

(** The dispatch a settlement belongs to. *)
Definition position (x : nat * nat * result) : nat * nat := fst x.

(** *** Invariant of the promise state *)

(** A [Promise.all] agrees with the promises it waits for. *)
Definition row_ok (row : list (option result)) (p : pall) : Prop :=
  match p with
  | Waiting n =>
      n = pending_row row /\ 0 < n
      /\ forall k e, row !! k <> Some (Some (Rejected e))
  | Done =>
      pending_row row = 0 /\ forall k e, row !! k <> Some (Some (Rejected e))
  | Failed r => exists k, row !! k = Some (Some (Rejected r))
  end.

(** A [Promise.all] seen as an element of the one that waits for it. *)
Definition as_promise (p : pall) : option result :=
  match p with
  | Waiting _ => None
  | Done => Some (Fulfilled VUndef)
  | Failed r => Some (Rejected r)
  end.

Record inv (g : batch) : Prop := Inv {
  inv_shape :
    Forall2 (fun row drow => length row = length drow) (settled g) (table g);
  inv_rows : Forall2 row_ok (settled g) (perItem g);
  inv_whole : row_ok (map as_promise (perItem g)) (whole g);
  inv_first :
    first_rejection (order g)
    = match whole g with Failed r => Some r | _ => None end;
  inv_order :
    forall i j r, In (i, j, r) (order g)
      <-> exists row, settled g !! i = Some row /\ row !! j = Some (Some r)
}.

(** *** Sample data *)

Definition feed_item : obj := [("field", VStr "feed"); ("value", VObj [])].

Definition message_item : obj :=
  [("sender", VObj [("id", VStr "7")]);
   ("message", VObj [("text", VStr "hi")])].

Definition delivery_item : obj :=
  [("sender", VObj [("id", VStr "7")]); ("delivery", VObj [])].

Definition bare_item : obj := [("value", VObj [])].

Definition http_service (fs : option (list string)) (t : bool) (u : string)
  : service :=
  Service (Some "http") fs t None u "".

Definition feed_entry : entry :=
  Entry (VStr "42") (VNum 1000) (Some [feed_item]) None.

Definition mixed_entry : entry :=
  Entry (VStr "42") (VNum 1000) (Some [feed_item]) (Some [message_item]).

Definition two_services : services :=
  [("crm", http_service None false "http://crm.example/hook");
   ("audit", http_service None false "http://audit.example/hook")].

Definition post (sig : string) (raw : option string) (b : envelope) : request :=
  Request None None None (Some sig) raw b.

Definition staged_services : services :=
  [("staging", http_service None true "http://staging.example/hook");
   ("crm", http_service None false "http://crm.example/hook")].

Definition signed_post (b : envelope) : request :=
  post ("sha1=" +:+ String.append "secret" "{}") (Some "{}") b.

Definition mention_services : services :=
  [("crm", http_service (Some ["mention"]) false "http://crm.example/hook")].

Definition smtp_services : services :=
  [("mail", Service (Some "smtp") None true None "" "");
   ("crm", http_service None false "http://crm.example/hook")].

(** * Proofs *)

(** ** Handshake *)

Lemma loose_eq_spec a b : loose_eq a b = true <-> a = b.
Proof.
  destruct a as [x|], b as [y|]; simpl; try (split; congruence).
  rewrite String.eqb_eq. split; congruence.
Qed.

Lemma loose_eq_false a b : loose_eq a b = false <-> a <> b.
Proof.
  rewrite <- loose_eq_spec. destruct (loose_eq a b); split; congruence.
Qed.

(** C9: when [hub.mode] is "subscribe", a [hub.verify_token] equal to the
    configured token is answered 200 with the supplied [hub.challenge] as
    the body, any other token is answered 400 "Invalid token"; when
    [hub.mode] is not "subscribe" the request goes on to the next stage. *)
Theorem authorizeFacebook_handshake (fbVerifyToken : option string) (req : request) :
  (hub_mode req = Some "subscribe" -> hub_verify_token req = fbVerifyToken ->
   authorizeFacebook fbVerifyToken req
   = (Respond (Response 200 (send (hub_challenge req))),
      [Info "Authorizing subscription through hub token"])
   /\ (forall challenge, hub_challenge req = Some challenge ->
         send (hub_challenge req) = Text challenge)
   /\ forall hmac secret svcs clients,
       app hmac secret fbVerifyToken svcs clients req
       = ([ValidateRequest; AuthorizeFacebook],
          Replied (Response 200 (send (hub_challenge req))),
          [Info "Authorizing subscription through hub token"]))
  /\ (hub_mode req = Some "subscribe" -> hub_verify_token req <> fbVerifyToken ->
      authorizeFacebook fbVerifyToken req
      = (Respond (Response 400 (Text "Invalid token")),
         [Warn "Unauthorized authorization request"])
      /\ forall hmac secret svcs clients,
          app hmac secret fbVerifyToken svcs clients req
          = ([ValidateRequest; AuthorizeFacebook],
             Replied (Response 400 (Text "Invalid token")),
             [Warn "Unauthorized authorization request"]))
  /\ (hub_mode req <> Some "subscribe" ->
      authorizeFacebook fbVerifyToken req = (Next, [])).
Proof.
  unfold app, middleware, chain, validateRequest, authorizeFacebook.
  split; [|split].
  - intros Hm Ht. apply loose_eq_spec in Hm, Ht. rewrite Hm, Ht. simpl.
    split; [reflexivity|]. split; [by intros challenge ->|reflexivity].
  - intros Hm Ht. apply loose_eq_spec in Hm. apply loose_eq_false in Ht.
    rewrite Hm, Ht. simpl. split; reflexivity.
  - intros Hm. apply loose_eq_false in Hm. by rewrite Hm.
Qed.

(** C9: the handshake. *)
Lemma authorizeFacebook_handshake_witness :
  app String.append "secret" (Some "token") two_services []
    (Request (Some "subscribe") (Some "token") (Some "1158201444") None None
             (Envelope None []))
  = ([ValidateRequest; AuthorizeFacebook],
     Replied (Response 200 (Text "1158201444")),
     [Info "Authorizing subscription through hub token"])
  /\ authorizeFacebook (Some "token")
       (Request (Some "subscribe") (Some "guess") (Some "1158201444") None None
                (Envelope None []))
     = (Respond (Response 400 (Text "Invalid token")),
        [Warn "Unauthorized authorization request"])
  /\ authorizeFacebook (Some "token")
       (post "sha1=00" (Some "{}") (Envelope (Some "page") []))
     = (Next, []).
Proof.
  split; [|split].
  - destruct (authorizeFacebook_handshake (Some "token")
                (Request (Some "subscribe") (Some "token") (Some "1158201444")
                         None None (Envelope None []))) as (H & _).
    destruct (H eq_refl eq_refl) as (_ & _ & Happ).
    apply (Happ String.append "secret" two_services []).
  - destruct (authorizeFacebook_handshake (Some "token")
                (Request (Some "subscribe") (Some "guess") (Some "1158201444")
                         None None (Envelope None []))) as (_ & H & _).
    apply H; simpl; [reflexivity | discriminate].
  - destruct (authorizeFacebook_handshake (Some "token")
                (post "sha1=00" (Some "{}") (Envelope (Some "page") [])))
      as (_ & _ & H).
    apply H; simpl; discriminate.
Defined.

(** ** Gatekeeper and signature verifier *)

(** C10: a request with neither [hub.mode=subscribe] nor an
    [x-hub-signature] header is answered 200 "pong" by [validateRequest];
    no other stage runs and nothing is dispatched. *)
Theorem validateRequest_pong hmac secret tok svcs clients (req : request) :
  hub_mode req <> Some "subscribe" ->
  x_hub_signature req = None ->
  app hmac secret tok svcs clients req
  = ([ValidateRequest], Replied (Response 200 (Text "pong")),
     [Warn "Invalid request, returning 200 anyway"]).
Proof.
  intros Hm Hs. apply loose_eq_false in Hm.
  unfold app, middleware, chain, validateRequest. by rewrite Hm, Hs.
Qed.

Lemma validateRequest_pong_witness :
  app String.append "secret" (Some "token") two_services []
      (Request None None None None None (Envelope (Some "page") [feed_entry]))
  = ([ValidateRequest], Replied (Response 200 (Text "pong")),
     [Warn "Invalid request, returning 200 anyway"]).
Proof.
  apply (validateRequest_pong String.append "secret" (Some "token")
           two_services []
           (Request None None None None None (Envelope (Some "page") [feed_entry])));
    simpl; [discriminate | reflexivity].
Defined.

(** When the raw body was captured, the verifier passes the request on
    exactly when the header is ["sha1=" + hex(HMAC-SHA1(secret, raw))], and
    answers 400 otherwise; without the header it passes the request on. *)
Lemma verifyHubSignature_raw hmac secret (req : request) :
  (forall sig raw,
      x_hub_signature req = Some sig -> rawBody req = Some raw ->
      (verifyHubSignature hmac secret req = (Next, [])
       <-> sig = "sha1=" +:+ hmac secret raw)
      /\ (sig <> "sha1=" +:+ hmac secret raw ->
          verifyHubSignature hmac secret req
          = (Respond (Response 400 (Text "Invalid signature")),
             [Warn "Invalid signature from hub challenge"])))
  /\ (x_hub_signature req = None ->
      verifyHubSignature hmac secret req = (Next, [])).
Proof.
  unfold verifyHubSignature. split.
  - intros sig raw -> ->.
    destruct (String.eqb_spec ("sha1=" +:+ hmac secret raw) sig) as [<-|Hne]; simpl.
    + split; [tauto|]. intros H. by destruct H.
    + split; [|reflexivity]. split; [discriminate|]. intros ->. by destruct Hne.
  - by intros ->.
Qed.

(** C2, at the input where the code departs from it: a request with a
    signature header and no captured raw body.  [hmac.update] throws, so the
    request neither passes nor is answered 400, whether the header is the
    correct signature of the empty body or any other value. *)
Theorem verifyHubSignature_missing_rawBody hmac secret tok svcs clients
        (b : envelope) :
  app hmac secret tok svcs clients (post ("sha1=" +:+ hmac secret "") None b)
  = ([ValidateRequest; AuthorizeFacebook; VerifyHubSignature],
     Crashed TypeError, [])
  /\ forall h,
      verifyHubSignature hmac secret (post h None b) = (Throw TypeError, [])
      /\ app hmac secret tok svcs clients (post ("sha1=" +:+ h) None b)
         = ([ValidateRequest; AuthorizeFacebook; VerifyHubSignature],
            Crashed TypeError, []).
Proof. split; [reflexivity|]. intros h. split; reflexivity. Qed.

(** ** Subscription filter *)

Lemma translated_has_spec fs key :
  translated_has (map MESSAGE_FIELD_MAP fs) key = true
  <-> exists f, In f fs /\ MESSAGE_FIELD_MAP f = Some key.
Proof.
  unfold translated_has. rewrite existsb_exists. split.
  - intros (x & Hin & Hx). apply in_map_iff in Hin as (f & <- & Hf).
    destruct (MESSAGE_FIELD_MAP f) as [k|] eqn:Hk; [|discriminate].
    apply String.eqb_eq in Hx as ->. eauto.
  - intros (f & Hf & Hk). exists (Some key). split.
    + apply in_map_iff. eauto.
    + apply String.eqb_refl.
Qed.

Lemma indexOf_found_spec fs v :
  indexOf_found fs v = true <-> exists f, In f fs /\ v = VStr f.
Proof.
  unfold indexOf_found. rewrite existsb_exists. split.
  - intros (f & Hin & Hx). destruct v; try discriminate.
    apply String.eqb_eq in Hx as ->. eauto.
  - intros (f & Hin & ->). exists f. split; [exact Hin|apply String.eqb_refl].
Qed.

Lemma validateFields_change fs item :
  isChange item = true ->
  (validateFields fs item = true <-> exists f, In f fs /\ get "field" item = VStr f).
Proof.
  unfold isChange, validateFields. intros ->. apply indexOf_found_spec.
Qed.

Lemma validateFields_messaging fs item :
  isMessagingEvent item = true ->
  (validateFields fs item = true
   <-> exists f key, In f fs /\ MESSAGE_FIELD_MAP f = Some key /\ In key (keys item)).
Proof.
  unfold isMessagingEvent, validateFields. intros H.
  apply andb_true_iff in H as [Hf Hs]. apply negb_true_iff in Hf.
  rewrite Hf, Hs, existsb_exists. split.
  - intros (key & Hin & Hk). apply translated_has_spec in Hk as (f & Hf' & Hk). eauto.
  - intros (f & key & Hin & Hk & Hkey). exists key. split; [exact Hkey|].
    apply translated_has_spec. eauto.
Qed.

(** The translation table has exactly these five entries. *)
Lemma MESSAGE_FIELD_MAP_table f key :
  MESSAGE_FIELD_MAP f = Some key
  <-> In (f, key) [("messages", "message"); ("message_deliveries", "delivery");
                   ("messaging_optins", "optin");
                   ("messaging_postbacks", "postback");
                   ("message_reads", "read")].
Proof.
  unfold MESSAGE_FIELD_MAP. simpl. split.
  - repeat (match goal with
            | |- context [String.eqb f ?x] =>
                destruct (String.eqb_spec f x) as [->|?]
            end); intros H; inversion H; tauto.
  - intros H.
    repeat (destruct H as [H|H]; [inversion H; subst; reflexivity|]).
    destruct H.
Qed.

(** C4: for an item classified as a messaging event and a service with a
    non-empty field list, the filter matches exactly when some entry of the
    list translates, through [MESSAGE_FIELD_MAP], to a key of the item; a
    service subscribed to ["messages"] matches exactly the items that carry
    a [message] key. *)
Theorem filter_messaging (s : service) (fs : list string) (item : obj) :
  isMessagingEvent item = true ->
  fields s = Some fs -> fs <> [] ->
  (matches s item = true
   <-> exists f key,
        In f fs /\ MESSAGE_FIELD_MAP f = Some key /\ In key (keys item))
  /\ (fs = ["messages"] ->
      (matches s item = true <-> In "message" (keys item))).
Proof.
  intros Hm Hfs Hne. unfold matches. rewrite Hfs.
  destruct fs as [|f0 fs']; [done|]. simpl Nat.eqb. rewrite orb_false_l.
  pose proof (validateFields_messaging (f0 :: fs') item Hm) as Hv.
  split; [exact Hv|].
  intros Heq. rewrite Hv, Heq. split.
  - intros (f & key & [<-|[]] & Hk & Hin).
    vm_compute in Hk. by inversion Hk; subst.
  - intros Hin. exists "messages", "message". simpl. auto.
Qed.

Lemma filter_messaging_witness :
  matches (http_service (Some ["messages"]) false "http://crm.example/hook")
          message_item = true
  /\ matches (http_service (Some ["messages"]) false "http://crm.example/hook")
             delivery_item = false.
Proof.
  split.
  - destruct (filter_messaging
                (http_service (Some ["messages"]) false "http://crm.example/hook")
                ["messages"] message_item eq_refl eq_refl) as [Hgen _];
      [discriminate|].
    apply Hgen. exists "messages", "message". simpl. auto.
  - apply not_true_is_false. intros H.
    destruct (filter_messaging
                (http_service (Some ["messages"]) false "http://crm.example/hook")
                ["messages"] delivery_item eq_refl eq_refl) as [_ Hex];
      [discriminate|].
    apply (Hex eq_refl) in H. simpl in H.
    destruct H as [H|[H|[]]]; discriminate.
Defined.

(** C5: for an item classified as a change, the filter matches exactly when
    the field list of the service is absent or empty, or the item's field
    is one of its entries. *)
Theorem filter_change (s : service) (item : obj) :
  isChange item = true ->
  (matches s item = true
   <-> fields s = None \/ fields s = Some []
     \/ exists fs f, fields s = Some fs /\ In f fs /\ get "field" item = VStr f).
Proof.
  intros Hc. unfold matches. destruct (fields s) as [[|f0 fs]|].
  - simpl. split; auto.
  - simpl Nat.eqb. rewrite orb_false_l, (validateFields_change _ _ Hc). split.
    + intros (f & Hin & Hf). right. right. eauto.
    + intros [H|[H|(fs' & f & H & Hin & Hf)]]; try discriminate.
      inversion H; subst. eauto.
  - split; auto.
Qed.

Lemma filter_change_witness :
  matches (http_service (Some ["feed"]) false "http://crm.example/hook")
          feed_item = true
  /\ matches (http_service (Some ["mention"]) false "http://crm.example/hook")
             feed_item = false.
Proof.
  split.
  - apply (filter_change
             (http_service (Some ["feed"]) false "http://crm.example/hook")
             feed_item eq_refl).
    right. right. exists ["feed"], "feed". simpl. auto.
  - apply not_true_is_false. intros H.
    apply (filter_change
             (http_service (Some ["mention"]) false "http://crm.example/hook")
             feed_item eq_refl) in H.
    destruct H as [H|[H|(fs & f & Hfs & Hin & Hf)]]; try discriminate.
    inversion Hfs; subst. destruct Hin as [<-|[]]. discriminate.
Defined.

(** ** Outbound envelope *)

Lemma getBody_page facebookId time item :
  getBody facebookId time item
  = page facebookId time
      ((if truthy (get "field" item) then [("changes", VArr [VObj item])] else [])
       ++ (if truthy (get "sender" item) then [("messaging", VArr [VObj item])] else [])).
Proof.
  unfold getBody, page.
  destruct (truthy (get "field" item)), (truthy (get "sender" item)); reflexivity.
Qed.

Lemma push_envelope clients name s facebookId item time c n b :
  push clients name s facebookId item time = Issued c n b ->
  envelope_of c = getBody facebookId time item /\ n = name /\ b = test s.
Proof.
  unfold push, Push_ddp, Push_http.
  destruct (type s) as [t|]; [|discriminate].
  destruct (String.eqb t "ddp").
  - destruct (existsb (String.eqb name) clients); [|discriminate].
    intros H; inversion H; subst. auto.
  - destruct (String.eqb t "http").
    + intros H; inversion H; subst. auto.
    + destruct (inherited t); discriminate.
Qed.

Lemma pushItem_envelope clients svcs facebookId item time c :
  In c (issued (pushItem clients svcs facebookId item time)) ->
  envelope_of c = getBody facebookId time item.
Proof.
  induction svcs as [|[name s] svcs IH]; simpl; [tauto|].
  destruct (matches s item); [|exact IH]. simpl.
  rewrite in_app_iff. intros [H|H]; [|by apply IH].
  destruct (push clients name s facebookId item time) as [r|r|c' n b] eqn:Hp;
    simpl in H; [tauto|tauto|].
  destruct H as [->|[]]. by apply push_envelope in Hp as (? & _).
Qed.

(** C7, amended: every call issued for a matched pair carries the envelope
    [{object: "page", entry: [{time, id, ...}]}] with the entry's id and
    time; the item is wrapped as [changes: [item]] when [item.field] is
    truthy and as [messaging: [item]] when [item.sender] is truthy, and an
    item with neither is sent as the bare envelope.  The end-to-end example
    issues exactly one POST, carrying the stated envelope. *)
Theorem outbound_envelope :
  (forall clients svcs facebookId time item c,
      In c (issued (pushItem clients svcs facebookId item time)) ->
      envelope_of c = getBody facebookId time item
      /\ (truthy (get "field" item) = true ->
          truthy (get "sender" item) = false ->
          envelope_of c
          = page facebookId time [("changes", VArr [VObj item])])
      /\ (truthy (get "field" item) = false ->
          truthy (get "sender" item) = true ->
          envelope_of c
          = page facebookId time [("messaging", VArr [VObj item])])
      /\ (truthy (get "field" item) = true ->
          truthy (get "sender" item) = true ->
          envelope_of c
          = page facebookId time
              [("changes", VArr [VObj item]); ("messaging", VArr [VObj item])])
      /\ (truthy (get "field" item) = false ->
          truthy (get "sender" item) = false ->
          envelope_of c = page facebookId time []))
  /\ (forall clients name s req,
         type s = Some "http" -> fields s = Some ["feed"] ->
         body req = Envelope (Some "page") [feed_entry] ->
         exists g,
           fst (handler [(name, s)] clients req)
           = Fanout [HttpPost (http_target s)
                       (page (VStr "42") (VNum 1000)
                          [("changes", VArr [VObj feed_item])])] g).
Proof.
  split.
  - intros clients svcs facebookId time item c Hc.
    apply pushItem_envelope in Hc. rewrite Hc, getBody_page.
    split; [reflexivity|]. repeat split; intros -> ->; reflexivity.
  - intros clients name s req Ht Hf Hb. unfold handler. rewrite Hb.
    eexists. simpl. unfold matches, push. rewrite Hf, Ht. simpl. reflexivity.
Qed.

Lemma outbound_envelope_witness :
  (envelope_of (HttpPost "http://crm.example/hook"
                  (getBody (VStr "42") (VNum 1000) feed_item))
   = page (VStr "42") (VNum 1000) [("changes", VArr [VObj feed_item])])
  /\ (envelope_of (HttpPost "http://crm.example/hook"
                     (getBody (VStr "42") (VNum 1000) message_item))
      = page (VStr "42") (VNum 1000) [("messaging", VArr [VObj message_item])])
  /\ (envelope_of (HttpPost "http://crm.example/hook"
                     (getBody (VStr "42") (VNum 1000)
                        (("field", VStr "feed") :: message_item)))
      = page (VStr "42") (VNum 1000)
          [("changes", VArr [VObj (("field", VStr "feed") :: message_item)]);
           ("messaging", VArr [VObj (("field", VStr "feed") :: message_item)])])
  /\ (envelope_of (HttpPost "http://crm.example/hook"
                     (getBody (VStr "42") (VNum 1000) bare_item))
      = page (VStr "42") (VNum 1000) [])
  /\ exists g,
      fst (handler [("crm", http_service (Some ["feed"]) false "http://crm.example/hook")]
             [] (post "sha1=00" (Some "{}") (Envelope (Some "page") [feed_entry])))
      = Fanout [HttpPost "http://crm.example/hook"
                  (page (VStr "42") (VNum 1000)
                     [("changes", VArr [VObj feed_item])])] g.
Proof.
  destruct outbound_envelope as [Hshape He2e].
  split; [|split; [|split; [|split]]].
  - apply (Hshape [] two_services (VStr "42") (VNum 1000) feed_item);
      [simpl; tauto | reflexivity | reflexivity].
  - apply (Hshape [] two_services (VStr "42") (VNum 1000) message_item);
      [simpl; tauto | reflexivity | reflexivity].
  - apply (Hshape [] two_services (VStr "42") (VNum 1000)
             (("field", VStr "feed") :: message_item));
      [simpl; tauto | reflexivity | reflexivity].
  - apply (Hshape [] two_services (VStr "42") (VNum 1000) bare_item);
      [simpl; tauto | reflexivity | reflexivity].
  - apply (He2e [] "crm"
             (http_service (Some ["feed"]) false "http://crm.example/hook")
             (post "sha1=00" (Some "{}") (Envelope (Some "page") [feed_entry])));
      reflexivity.
Defined.

(** C7 as stated fails for a matched item that carries neither key: the
    service subscribed to everything is sent an envelope without the item. *)
Lemma outbound_envelope_counterexample :
  matches (http_service None false "http://crm.example/hook") bare_item = true
  /\ calls [pushItem [] [("crm", http_service None false "http://crm.example/hook")]
              (VStr "42") bare_item (VNum 1000)]
     = [HttpPost "http://crm.example/hook" (page (VStr "42") (VNum 1000) [])]
  /\ page (VStr "42") (VNum 1000) []
     <> page (VStr "42") (VNum 1000) [("changes", VArr [VObj bare_item])]
  /\ page (VStr "42") (VNum 1000) []
     <> page (VStr "42") (VNum 1000) [("messaging", VArr [VObj bare_item])].
Proof. repeat split; discriminate. Qed.

(** ** Event normalizer *)

(** C6, amended: the members of [changes] are dispatched when the entry
    carries that array, otherwise the members of [messaging]; an entry with
    neither dispatches nothing.  Every call issued for the entry carries
    the entry's id and time. *)
Theorem entry_dispatch clients svcs (e : entry) :
  (forall cs, changes e = Some cs ->
     pushEntry clients svcs e
     = map (fun item => pushItem clients svcs (id e) item (time e)) cs)
  /\ (forall ms, changes e = None -> messaging e = Some ms ->
        pushEntry clients svcs e
        = map (fun item => pushItem clients svcs (id e) item (time e)) ms)
  /\ (changes e = None -> messaging e = None -> pushEntry clients svcs e = [])
  /\ (forall c, In c (calls (pushEntry clients svcs e)) ->
        exists item,
          (changes e = None -> In item (default [] (messaging e)))
          /\ (changes e <> None -> In item (default [] (changes e)))
          /\ envelope_of c = getBody (id e) (time e) item).
Proof.
  unfold pushEntry. repeat split.
  - by intros cs ->.
  - by intros ms -> ->.
  - by intros -> ->.
  - intros c Hc. unfold calls in Hc. apply in_flat_map in Hc as (row & Hrow & Hc).
    destruct (changes e) as [cs|].
    + apply in_map_iff in Hrow as (item & <- & Hin).
      exists item. split; [discriminate|]. split; [done|].
      by apply pushItem_envelope in Hc.
    + destruct (messaging e) as [ms|]; [|destruct Hrow].
      apply in_map_iff in Hrow as (item & <- & Hin).
      exists item. split; [done|]. split; [congruence|].
      by apply pushItem_envelope in Hc.
Qed.

Lemma entry_dispatch_witness :
  pushEntry [] two_services mixed_entry
  = map (fun item => pushItem [] two_services (VStr "42") item (VNum 1000))
        [feed_item]
  /\ pushEntry [] two_services
       (Entry (VStr "42") (VNum 1000) None (Some [message_item]))
     = map (fun item => pushItem [] two_services (VStr "42") item (VNum 1000))
           [message_item]
  /\ pushEntry [] two_services (Entry (VStr "42") (VNum 1000) None None) = []
  /\ exists item,
      (changes feed_entry = None -> In item (default [] (messaging feed_entry)))
      /\ (changes feed_entry <> None -> In item (default [] (changes feed_entry)))
      /\ envelope_of (HttpPost "http://crm.example/hook"
                        (getBody (VStr "42") (VNum 1000) feed_item))
         = getBody (id feed_entry) (time feed_entry) item.
Proof.
  split; [|split; [|split]].
  - destruct (entry_dispatch [] two_services mixed_entry) as (H & _).
    apply H. reflexivity.
  - destruct (entry_dispatch [] two_services
                (Entry (VStr "42") (VNum 1000) None (Some [message_item])))
      as (_ & H & _).
    apply H; reflexivity.
  - destruct (entry_dispatch [] two_services
                (Entry (VStr "42") (VNum 1000) None None)) as (_ & _ & H & _).
    apply H; reflexivity.
  - destruct (entry_dispatch [] two_services feed_entry) as (_ & _ & _ & H).
    apply H. simpl. tauto.
Defined.

(** C6 as stated fails for an entry carrying both arrays: only the member
    of [changes] is dispatched, the member of [messaging] never is. *)
Lemma entry_both_arrays_counterexample :
  changes mixed_entry = Some [feed_item]
  /\ messaging mixed_entry = Some [message_item]
  /\ pushEntry [] two_services mixed_entry
     = [pushItem [] two_services (VStr "42") feed_item (VNum 1000)]
  /\ map envelope_of (calls (pushEntry [] two_services mixed_entry))
     = [getBody (VStr "42") (VNum 1000) feed_item;
        getBody (VStr "42") (VNum 1000) feed_item]
  /\ ~ In (getBody (VStr "42") (VNum 1000) message_item)
          (map envelope_of (calls (pushEntry [] two_services mixed_entry))).
Proof.
  repeat split. simpl. intros [H|[H|[]]]; discriminate.
Qed.

(** ** Promise state *)

Lemma pending_row_insert (row : list (option result)) j r :
  row !! j = Some None -> S (pending_row (<[j := Some r]> row)) = pending_row row.
Proof.
  revert j. induction row as [|x row IH]; intros [|j] H; simpl in *; try discriminate.
  - by inversion H.
  - destruct x; rewrite <- (IH j H); reflexivity.
Qed.

Lemma pending_row_zero (row : list (option result)) j :
  pending_row row = 0 -> row !! j <> Some None.
Proof.
  intros Hz H. pose proof (pending_row_insert row j (Fulfilled VUndef) H). lia.
Qed.

Lemma notify_ok row p j r :
  row_ok row p -> row !! j = Some None -> row_ok (<[j := Some r]> row) (notify p r).
Proof.
  intros Hok Hj.
  assert (Hlt : j < length row) by (eapply lookup_lt_Some; eauto).
  pose proof (pending_row_insert row j r Hj) as Hcnt.
  assert (Hkeep : forall k e, (forall k e, row !! k <> Some (Some (Rejected e))) ->
            (forall v, r = Fulfilled v -> <[j := Some r]> row !! k <> Some (Some (Rejected e)))).
  { intros k e Hno v ->. rewrite list_lookup_insert.
    case_decide as Hd; [|apply Hno]. destruct Hd as [-> _]. congruence. }
  destruct p as [n| |r0]; simpl in Hok.
  - destruct Hok as (-> & Hpos & Hno). destruct r as [v|e]; simpl.
    + destruct (Nat.eqb_spec (pending_row row - 1) 0) as [Hz|Hz]; simpl.
      * split; [lia|]. intros k e. eapply Hkeep; eauto.
      * split; [lia|]. split; [lia|]. intros k e. eapply Hkeep; eauto.
    + exists j. by apply list_lookup_insert_eq.
  - destruct Hok as (Hz & _). by apply pending_row_zero with (j := j) in Hz.
  - destruct Hok as (k & Hk). destruct r; simpl; exists k;
      (rewrite list_lookup_insert_ne; [exact Hk|]); intros ->; congruence.
Qed.

Lemma first_rejection_app l x :
  first_rejection (l ++ [x])
  = match first_rejection l with
    | Some r => Some r
    | None => first_rejection [x]
    end.
Proof.
  induction l as [|[[i j] [v|r]] l IH]; simpl; auto.
Qed.

Lemma deliver_inv g i j r l : inv g -> inv (deliver g i j r l).
Proof.
  intros [Hshape Hrows Hwhole Hfirst Horder]. unfold deliver.
  destruct (settled g !! i) as [row|] eqn:Hi; [|by constructor].
  destruct (row !! j) as [[x|]|] eqn:Hj; [by constructor| |by constructor].
  destruct (Forall2_lookup_l _ _ _ _ _ Hrows Hi) as (p & Hp & Hok).
  destruct (Forall2_lookup_l _ _ _ _ _ Hshape Hi) as (drow & Hd & Hlen).
  rewrite Hp; simpl default.
  pose proof (notify_ok row p j r Hok Hj) as Hok'.
  assert (Hview : map as_promise (perItem g) !! i = Some (as_promise p))
    by (rewrite list_lookup_fmap, Hp; reflexivity).
  assert (Hnd : p <> Done).
  { intros ->. destruct Hok as (Hz & _). by apply pending_row_zero with (j := j) in Hz. }
  constructor; simpl.
  - rewrite <- (list_insert_id (table g) i drow Hd).
    apply Forall2_insert; [exact Hshape|]. by rewrite length_insert.
  - apply Forall2_insert; assumption.
  - rewrite list_fmap_insert.
    destruct p as [n| |r0]; [|done|].
    + destruct (notify (Waiting n) r) as [m| |e] eqn:Hn.
      * simpl. by rewrite list_insert_id.
      * change (resolveElement (whole g)) with (notify (whole g) (Fulfilled VUndef)).
        by apply notify_ok.
      * change (rejectElement (whole g) e) with (notify (whole g) (Rejected e)).
        by apply notify_ok.
    + assert (notify (Failed r0) r = Failed r0) as -> by (by destruct r).
      by rewrite list_insert_id.
  - rewrite first_rejection_app, Hfirst.
    destruct (whole g) as [n| |r0] eqn:Hw.
    + destruct p as [m| |r1]; [|done|].
      * destruct r as [v|e]; simpl.
        -- destruct (Nat.eqb (m - 1) 0); simpl; [|reflexivity].
           destruct (Nat.eqb (n - 1) 0); reflexivity.
        -- reflexivity.
      * exfalso. destruct Hwhole as (_ & _ & Hno). by apply (Hno i r1).
    + exfalso. destruct Hwhole as (Hz & Hno).
      destruct p as [m| |r1]; [|done|].
      * by apply pending_row_zero with (j := i) in Hz.
      * by apply (Hno i r1).
    + assert (Hst : forall q, notify (Failed r0) q = Failed r0) by (by intros []).
      destruct p as [m| |r1]; [|done|].
      * destruct (notify (Waiting m) r); reflexivity.
      * destruct (notify (Failed r1) r); reflexivity.
  - intros i' j' r'. rewrite in_app_iff, Horder. simpl.
    split.
    + intros [(row' & Hi' & Hj')|[Heq|[]]].
      * destruct (decide (i' = i)) as [->|Hne].
        -- exists (<[j := Some r]> row). split.
           ++ apply list_lookup_insert_eq. eapply lookup_lt_Some; eauto.
           ++ rewrite Hi in Hi'. inversion Hi'; subst row'.
              rewrite list_lookup_insert_ne; [exact Hj'|]. intros ->. congruence.
        -- exists row'. split; [|exact Hj'].
           by rewrite list_lookup_insert_ne.
      * inversion Heq; subst i' j' r'. exists (<[j := Some r]> row). split.
        -- apply list_lookup_insert_eq. eapply lookup_lt_Some; eauto.
        -- apply list_lookup_insert_eq. eapply lookup_lt_Some; eauto.
    + intros (row' & Hi' & Hj').
      destruct (decide (i' = i)) as [->|Hne].
      * rewrite list_lookup_insert_eq in Hi' by (eapply lookup_lt_Some; eauto).
        inversion Hi'; subst row'.
        destruct (decide (j' = j)) as [->|Hnj].
        -- rewrite list_lookup_insert_eq in Hj' by (eapply lookup_lt_Some; eauto).
           inversion Hj'; subst. right. by left.
        -- rewrite list_lookup_insert_ne in Hj' by done. left. eauto.
      * rewrite list_lookup_insert_ne in Hi' by done. left. eauto.
Qed.

Lemma pending_row_fresh {A} (row : list A) :
  pending_row (map (fun _ => None) row) = length row.
Proof. induction row; simpl; auto. Qed.

Lemma lookup_fresh {A} (row : list A) k x :
  map (fun _ => @None result) row !! k = Some x -> x = None.
Proof. rewrite list_lookup_fmap. destruct (row !! k); simpl; congruence. Qed.

Lemma pall_new_ok {A} (row : list A) :
  row_ok (map (fun _ => None) row) (pall_new (length row)).
Proof.
  destruct row as [|a row]; simpl.
  - split; [reflexivity|]. intros k e. by rewrite lookup_nil.
  - split; [by rewrite pending_row_fresh|]. split; [lia|].
    intros [|k] e H; [discriminate|]. simpl in H.
    apply lookup_fresh in H. discriminate.
Qed.

Lemma skip_empty_ok t : forall pre w,
  row_ok (pre ++ map (fun _ => None) t) w ->
  row_ok (pre ++ map (fun row => as_promise (pall_new (length row))) t)
         (skip_empty w t).
Proof.
  induction t as [|row t IH]; intros pre w Hok; simpl; [exact Hok|].
  destruct row as [|d row]; simpl.
  - rewrite (cons_middle _ pre), app_assoc. apply IH.
    rewrite <- app_assoc. simpl.
    change (resolveElement w) with (notify w (Fulfilled VUndef)).
    replace (pre ++ Some (Fulfilled VUndef) :: map (fun _ => None) t)
      with (<[length pre + 0 := Some (Fulfilled VUndef)]>
              (pre ++ None :: map (fun _ => None) t))
      by (by rewrite insert_app_r).
    apply notify_ok; [exact Hok|].
    rewrite lookup_app_r by lia. by replace (length pre + 0 - length pre) with 0 by lia.
  - rewrite (cons_middle _ pre), app_assoc. apply IH.
    rewrite <- app_assoc. exact Hok.
Qed.

Lemma fresh_inv t : inv (fresh t).
Proof.
  assert (Hw : row_ok (map as_promise (map (fun row => pall_new (length row)) t))
                 (skip_empty (pall_new (length t)) t)).
  { rewrite map_map. apply (skip_empty_ok t []). simpl. apply pall_new_ok. }
  constructor; simpl.
  - clear Hw. induction t; simpl; constructor; auto. by rewrite length_map.
  - clear Hw. induction t; simpl; constructor; auto. apply pall_new_ok.
  - exact Hw.
  - destruct (skip_empty (pall_new (length t)) t) as [n| |r] eqn:Hs; try reflexivity.
    exfalso. destruct Hw as (k & Hk). rewrite map_map, list_lookup_fmap in Hk.
    destruct (t !! k) as [[|d row]|]; discriminate.
  - intros i j r. split; [intros []|].
    intros (row & Hi & Hj). rewrite list_lookup_fmap in Hi.
    destruct (t !! i) as [drow|]; [|discriminate]. inversion Hi; subst row.
    apply lookup_fresh in Hj. discriminate.
Qed.

Lemma reject_all_inv l : forall g, inv g -> inv (reject_all g l).
Proof.
  induction l as [|[[i j] r] l IH]; intros g Hg; simpl; [exact Hg|].
  apply IH. by apply deliver_inv.
Qed.

Lemma start_inv t : inv (start t).
Proof. do 2 apply reject_all_inv. apply fresh_inv. Qed.

Lemma callback_inv g i j o : inv g -> inv (callback g i j o).
Proof.
  intros Hg. unfold callback.
  destruct (table g !! i) as [row|]; [|exact Hg].
  destruct (row !! j) as [[r|r|c name suppress]|]; try exact Hg.
  destruct (complete c name suppress o). by apply deliver_inv.
Qed.

Lemma run_inv sched : forall g, inv g -> inv (run g sched).
Proof.
  induction sched as [|[[i j] o] sched IH]; intros g Hg; simpl; [exact Hg|].
  apply IH. by apply callback_inv.
Qed.

Lemma reachable_inv t sched : inv (run (start t) sched).
Proof. apply run_inv, start_inv. Qed.

Lemma row_all_fulfilled row :
  Forall fulfilled row <->
  pending_row row = 0 /\ forall k e, row !! k <> Some (Some (Rejected e)).
Proof.
  induction row as [|x row IH]; simpl.
  - split; [|constructor]. intros _. split; [reflexivity|]. intros k e. by rewrite lookup_nil.
  - split.
    + intros H. inversion H as [|? ? [v ->] Hrow]; subst.
      apply IH in Hrow as (Hz & Hno). split; [exact Hz|].
      intros [|k] e; simpl; [congruence|apply Hno].
    + intros (Hz & Hno). destruct x as [[v|e]|]; [| |discriminate].
      * constructor; [by exists v|]. apply IH. split; [exact Hz|].
        intros k e. apply (Hno (S k) e).
      * by specialize (Hno 0 e).
Qed.

Lemma row_ok_done row p : row_ok row p -> (p = Done <-> Forall fulfilled row).
Proof.
  intros Hok. rewrite row_all_fulfilled. destruct p as [n| |r]; simpl in Hok.
  - destruct Hok as (-> & Hpos & _). split; [discriminate|]. intros (Hz & _). lia.
  - split; auto.
  - destruct Hok as (k & Hk). split; [discriminate|]. intros (_ & Hno). by specialize (Hno k r).
Qed.

Lemma inv_done g : inv g -> (whole g = Done <-> Forall (Forall fulfilled) (settled g)).
Proof.
  intros [_ Hrows Hwhole _ _].
  rewrite (row_ok_done _ _ Hwhole).
  clear Hwhole. induction Hrows as [|row p rows ps Hok _ IH]; simpl.
  - split; constructor.
  - pose proof (row_ok_done _ _ Hok) as Hd.
    split; intros H; inversion H as [|? ? Hx Hl]; subst; constructor.
    + apply Hd. destruct p; destruct Hx as [v Hv]; simpl in Hv; congruence.
    + by apply IH.
    + apply Hd in Hx as ->. by exists VUndef.
    + by apply IH.
Qed.

Lemma responded_500 g r :
  inv g ->
  (responded g = Some (Response 500 (Failure r)) <-> first_rejection (order g) = Some r).
Proof.
  intros Hg. rewrite (inv_first g Hg). unfold responded.
  destruct (whole g); split; congruence.
Qed.

Lemma responded_200 g :
  inv g ->
  (responded g = Some (Response 200 (Text "OK")) <-> Forall (Forall fulfilled) (settled g)).
Proof.
  intros Hg. rewrite <- (inv_done g Hg). unfold responded.
  destruct (whole g); split; congruence.
Qed.

Lemma responded_none g :
  inv g ->
  (responded g = None
   <-> first_rejection (order g) = None /\ ~ Forall (Forall fulfilled) (settled g)).
Proof.
  intros Hg. rewrite <- (inv_done g Hg), (inv_first g Hg). unfold responded.
  destruct (whole g); split; try congruence; try tauto.
  - intros _. split; congruence.
  - intros [? ?]. congruence.
Qed.

Lemma table_deliver g i j r l : table (deliver g i j r l) = table g.
Proof.
  unfold deliver. destruct (settled g !! i) as [row|]; [|reflexivity].
  destruct (row !! j) as [[x|]|]; reflexivity.
Qed.

Lemma table_callback g i j o : table (callback g i j o) = table g.
Proof.
  unfold callback. destruct (table g !! i) as [row|]; [|reflexivity].
  destruct (row !! j) as [[r|r|c name suppress]|]; try reflexivity.
  destruct (complete c name suppress o). apply table_deliver.
Qed.

Lemma table_reject_all l : forall g, table (reject_all g l) = table g.
Proof.
  induction l as [|[[i j] r] l IH]; intros g; simpl; [reflexivity|].
  by rewrite IH, table_deliver.
Qed.

Lemma table_run sched : forall g, table (run g sched) = table g.
Proof.
  induction sched as [|[[i j] o] sched IH]; intros g; simpl; [reflexivity|].
  by rewrite IH, table_callback.
Qed.

Lemma table_start t sched : table (run (start t) sched) = t.
Proof. unfold start. by rewrite table_run, !table_reject_all. Qed.

(** ** Settlement order *)

(** Settlement order only grows. *)
Lemma deliver_first g i j r l e :
  first_rejection (order g) = Some e ->
  first_rejection (order (deliver g i j r l)) = Some e.
Proof.
  intros H. unfold deliver.
  destruct (settled g !! i) as [row|]; [|exact H].
  destruct (row !! j) as [[x|]|]; try exact H.
  simpl. by rewrite first_rejection_app, H.
Qed.

Lemma callback_first g i j o e :
  first_rejection (order g) = Some e ->
  first_rejection (order (callback g i j o)) = Some e.
Proof.
  intros H. unfold callback.
  destruct (table g !! i) as [row|]; [|exact H].
  destruct (row !! j) as [[r|r|c name suppress]|]; try exact H.
  destruct (complete c name suppress o). by apply deliver_first.
Qed.

Lemma reject_all_first l : forall g e,
  first_rejection (order g) = Some e ->
  first_rejection (order (reject_all g l)) = Some e.
Proof.
  induction l as [|[[i j] r] l IH]; intros g e H; simpl; [exact H|].
  by apply IH, deliver_first.
Qed.

Lemma run_first sched : forall g e,
  first_rejection (order g) = Some e ->
  first_rejection (order (run g sched)) = Some e.
Proof.
  induction sched as [|[[i j] o] sched IH]; intros g e H; simpl; [exact H|].
  by apply IH, callback_first.
Qed.

Lemma rejections_row_valid sel i j0 row i' j r :
  In (i', j, r) (rejections_row sel i j0 row) ->
  i' = i /\ j0 <= j /\ exists d, row !! (j - j0) = Some d /\ sel d = Some r.
Proof.
  revert j0. induction row as [|d row IH]; intros j0 H; simpl in H; [done|].
  assert (Hrec : In (i', j, r) (rejections_row sel i (S j0) row) ->
                 i' = i /\ j0 <= j
                 /\ exists d', (d :: row) !! (j - j0) = Some d' /\ sel d' = Some r).
  { intros H'. apply IH in H' as (-> & Hle & d' & Hl & Hsel).
    split; [done|]. split; [lia|]. exists d'.
    replace (j - j0) with (S (j - S j0)) by lia. done. }
  destruct (sel d) as [r0|] eqn:Hd; [|by apply Hrec].
  destruct H as [Heq|H]; [|by apply Hrec].
  inversion Heq; subst. split; [done|]. split; [lia|]. exists d.
  by replace (j - j) with 0 by lia.
Qed.

Lemma rejections_from_valid sel k t i j r :
  In (i, j, r) (rejections_from sel k t) ->
  k <= i /\ exists row d, t !! (i - k) = Some row /\ row !! j = Some d /\ sel d = Some r.
Proof.
  revert k. induction t as [|row t IH]; intros k H; simpl in H; [done|].
  apply in_app_iff in H as [H|H].
  - apply rejections_row_valid in H as (-> & _ & d & Hl & Hsel).
    split; [lia|]. exists row, d. replace (k - k) with 0 by lia.
    split; [done|]. by replace (j - 0) with j in Hl by lia.
  - apply IH in H as (Hle & row' & d & Ht & Hl & Hsel). split; [lia|].
    exists row', d. replace (i - k) with (S (i - S k)) by lia. done.
Qed.

Lemma rejections_row_in sel i row : forall j0 j d r,
  row !! j = Some d -> sel d = Some r ->
  In (i, j0 + j, r) (rejections_row sel i j0 row).
Proof.
  induction row as [|d0 row IH]; intros j0 [|j] d r H Hsel; simpl in *;
    try discriminate.
  - inversion H; subst. rewrite Hsel. left. f_equal. f_equal. lia.
  - replace (j0 + S j) with (S j0 + j) by lia.
    destruct (sel d0); [right|]; eapply IH; eauto.
Qed.

Lemma rejections_from_in sel t : forall k i row j d r,
  t !! i = Some row -> row !! j = Some d -> sel d = Some r ->
  In (k + i, j, r) (rejections_from sel k t).
Proof.
  induction t as [|row0 t IH]; intros k [|i] row j d r Hi Hj Hsel; simpl in *;
    try discriminate; apply in_app_iff.
  - inversion Hi; subst. left. replace (k + 0) with k by lia.
    by apply (rejections_row_in sel k row 0 j d r).
  - right. replace (k + S i) with (S k + i) by lia. eapply IH; eauto.
Qed.

Lemma fresh_pending t i j row d :
  t !! i = Some row -> row !! j = Some d ->
  exists srow, settled (fresh t) !! i = Some srow /\ srow !! j = Some None.
Proof.
  intros Hi Hj. exists (map (fun _ => None) row). unfold fresh; cbn [settled].
  rewrite list_lookup_fmap, Hi. split; [done|].
  by rewrite list_lookup_fmap, Hj.
Qed.

Lemma start_first_immediate t i j r rest :
  rejections_from at_creation 0 t = (i, j, r) :: rest ->
  first_rejection (order (start t)) = Some r.
Proof.
  intros H. unfold start. rewrite H. simpl.
  do 2 apply reject_all_first.
  assert (Hin : In (i, j, r) (rejections_from at_creation 0 t))
    by (rewrite H; by left).
  apply rejections_from_valid in Hin as (_ & row & d & Hi & Hj & _).
  replace (i - 0) with i in Hi by lia.
  destruct (fresh_pending t i j row _ Hi Hj) as (srow & Hs & Hp).
  unfold deliver. rewrite Hs, Hp. reflexivity.
Qed.

(** A promise rejected at creation fails the request whatever the
    transports answer afterwards. *)
Lemma immediate_first t i j r rest sched :
  rejections_from at_creation 0 t = (i, j, r) :: rest ->
  responded (run (start t) sched) = Some (Response 500 (Failure r)).
Proof.
  intros H. apply responded_500; [apply reachable_inv|].
  apply run_first. eapply start_first_immediate; eauto.
Qed.

(** Any promise rejected by its executor fails the request, for every
    answer of the transports. *)
Lemma immediate_fails_batch t i row j r sched :
  t !! i = Some row -> row !! j = Some (Immediate r) ->
  exists r', responded (run (start t) sched) = Some (Response 500 (Failure r')).
Proof.
  intros Hi Hj.
  pose proof (rejections_from_in at_creation t 0 i row j _ r Hi Hj eq_refl) as Hin.
  destruct (rejections_from at_creation 0 t) as [|[[i' j'] r'] rest] eqn:Him;
    [destruct Hin|].
  exists r'. eapply immediate_first; eauto.
Qed.

(** The callback of a pending call settles its promise. *)
Lemma callback_pending g i j o drow c name sup srow :
  table g !! i = Some drow -> drow !! j = Some (Issued c name sup) ->
  settled g !! i = Some srow -> srow !! j = Some None ->
  order (callback g i j o) = order g ++ [(i, j, fst (complete c name sup o))]
  /\ settled (callback g i j o)
     = <[i := <[j := Some (fst (complete c name sup o))]> srow]> (settled g)
  /\ incl (snd (complete c name sup o)) (journal (callback g i j o)).
Proof.
  intros Hi Hj Hs Hp. unfold callback. rewrite Hi, Hj.
  destruct (complete c name sup o) as [r l]. unfold deliver. rewrite Hs, Hp. simpl.
  split; [reflexivity|]. split; [reflexivity|].
  intros x Hx. rewrite !in_app_iff. tauto.
Qed.

(** A failure of a service under test leaves the first rejection as it was. *)
Lemma complete_error c name sup err :
  is_error c err = true ->
  complete c name sup (Fails err) = on_error name sup err.
Proof.
  destruct c; simpl; [|reflexivity]. unfold ddp_callback. by intros ->.
Qed.

Lemma complete_suppressed c name o :
  exists v l, complete c name true o = (Fulfilled v, l).
Proof.
  destruct c, o; simpl; unfold ddp_callback, on_error; simpl; eauto;
    destruct (negb (truthy err)); eauto.
Qed.

Lemma callback_suppressed g i j drow c name o :
  table g !! i = Some drow -> drow !! j = Some (Issued c name true) ->
  first_rejection (order (callback g i j o))
  = first_rejection (order g).
Proof.
  intros Hi Hj. unfold callback. rewrite Hi, Hj.
  destruct (complete_suppressed c name o) as (v & l & ->). unfold deliver.
  destruct (settled g !! i) as [row|]; [|reflexivity].
  destruct (row !! j) as [[x|]|]; try reflexivity.
  simpl. rewrite first_rejection_app. by destruct (first_rejection (order g)).
Qed.

(** A failure of a service not under test is answered at once. *)
Lemma callback_failure_responds g i j drow c name srow err :
  inv g ->
  table g !! i = Some drow -> drow !! j = Some (Issued c name false) ->
  settled g !! i = Some srow -> srow !! j = Some None ->
  is_error c err = true ->
  responded g = None ->
  responded (callback g i j (Fails err))
  = Some (Response 500 (Failure (Remote err))).
Proof.
  intros Hg Hi Hj Hs Hp He Hr.
  apply responded_500; [by apply callback_inv|].
  destruct (callback_pending g i j (Fails err) _ _ _ _ _ Hi Hj Hs Hp) as [-> _].
  apply responded_none in Hr as [Hr _]; [|exact Hg].
  by rewrite first_rejection_app, Hr, (complete_error _ _ _ _ He).
Qed.

Lemma issued_in_calls (t : list (list dispatch)) i j row c n b :
  t !! i = Some row -> row !! j = Some (Issued c n b) -> In c (calls t).
Proof.
  intros Hi Hj. unfold calls. apply in_flat_map. exists row. split.
  - apply list_elem_of_In. eapply list_elem_of_lookup_2; eauto.
  - unfold issued. apply in_flat_map. exists (Issued c n b). split; [|by left].
    apply list_elem_of_In. eapply list_elem_of_lookup_2; eauto.
Qed.

(** ** The gatekeeper's answer *)

(** C1, amended: for a validated POST the handler issues every call before
    anything is answered; whatever the order in which the calls complete,
    the answer is 200 exactly when every promise is fulfilled, and it is
    500 with the reason of the first rejection as soon as a promise is
    rejected, while other promises may still be pending. *)
Theorem gatekeeper_settlement svcs clients (req : request) sched :
  object (body req) = Some "page" ->
  exists t g,
    t = pushAll clients svcs (entries (body req))
    /\ g = run (start t) sched
    /\ fst (handler svcs clients req) = Fanout (calls t) (start t)
    /\ (forall i j row c n b,
           t !! i = Some row -> row !! j = Some (Issued c n b) -> In c (calls t))
    /\ Forall2 (fun row drow => length row = length drow) (settled g) t
    /\ (responded g = Some (Response 200 (Text "OK"))
        <-> Forall (Forall fulfilled) (settled g))
    /\ (forall r, responded g = Some (Response 500 (Failure r))
                  <-> first_rejection (order g) = Some r)
    /\ (responded g = None
        <-> first_rejection (order g) = None
            /\ ~ Forall (Forall fulfilled) (settled g))
    /\ (forall i j r, In (i, j, r) (order g)
          <-> exists row, settled g !! i = Some row /\ row !! j = Some (Some r))
    /\ (forall i j drow c name srow err,
           t !! i = Some drow -> drow !! j = Some (Issued c name false) ->
           settled g !! i = Some srow -> srow !! j = Some None ->
           is_error c err = true ->
           responded g = None ->
           responded (callback g i j (Fails err))
           = Some (Response 500 (Failure (Remote err)))).
Proof.
  intros Hpage. apply loose_eq_spec in Hpage.
  exists (pushAll clients svcs (entries (body req))).
  eexists. split; [reflexivity|]. split; [reflexivity|].
  set (t := pushAll clients svcs (entries (body req))).
  pose proof (reachable_inv t sched) as Hg.
  split; [unfold handler; by rewrite Hpage|].
  split; [intros; eapply issued_in_calls; eauto|].
  split; [rewrite <- (table_start t sched) at 2; apply (inv_shape _ Hg)|].
  split; [by apply responded_200|].
  split; [intros r; by apply responded_500|].
  split; [by apply responded_none|].
  split; [apply (inv_order _ Hg)|].
  intros i j drow c name srow err Hi Hj Hs Hp He Hr.
  eapply callback_failure_responds; eauto. by rewrite table_start.
Qed.

Lemma gatekeeper_settlement_witness :
  (exists t g,
      t = pushAll [] two_services [feed_entry]
      /\ g = run (start t) [(0, 1, Succeeds VNull); (0, 0, Succeeds VNull)]
      /\ fst (handler two_services []
                (post "sha1=00" (Some "{}") (Envelope (Some "page") [feed_entry])))
         = Fanout (calls t) (start t)
      /\ responded g = Some (Response 200 (Text "OK")))
  /\ responded
       (callback (run (start (pushAll [] two_services [feed_entry])) [])
                 0 0 (Fails (VStr "ECONNREFUSED")))
     = Some (Response 500 (Failure (Remote (VStr "ECONNREFUSED")))).
Proof.
  split.
  - destruct (gatekeeper_settlement two_services []
                (post "sha1=00" (Some "{}") (Envelope (Some "page") [feed_entry]))
                [(0, 1, Succeeds VNull); (0, 0, Succeeds VNull)] eq_refl)
      as (t & g & Ht & Hg & Hh & _).
    exists t, g. repeat split; try assumption.
    subst g t. reflexivity.
  - destruct (gatekeeper_settlement two_services []
                (post "sha1=00" (Some "{}") (Envelope (Some "page") [feed_entry]))
                [] eq_refl)
      as (t & g & Ht & Hg & _ & _ & _ & _ & _ & _ & _ & Hfast).
    subst g t. eapply Hfast; reflexivity.
Defined.

(** C1 as stated fails: when the first of two deliveries fails, 500 is
    answered while the second is still pending. *)
Lemma gatekeeper_fail_fast_counterexample :
  settled (run (start (pushAll [] two_services [feed_entry]))
               [(0, 0, Fails (VStr "ECONNREFUSED"))])
  = [[Some (Rejected (Remote (VStr "ECONNREFUSED"))); None]]
  /\ pending (run (start (pushAll [] two_services [feed_entry]))
                  [(0, 0, Fails (VStr "ECONNREFUSED"))]) = 1
  /\ responded (run (start (pushAll [] two_services [feed_entry]))
                    [(0, 0, Fails (VStr "ECONNREFUSED"))])
     = Some (Response 500 (Failure (Remote (VStr "ECONNREFUSED")))).
Proof. repeat split. Qed.

(** ** Test services *)

Lemma push_deliverable clients name s facebookId item time :
  deliverable clients name s = true ->
  exists c, push clients name s facebookId item time = Issued c name (test s).
Proof.
  unfold deliverable, push, Push_ddp, Push_http.
  destruct (type s) as [t|]; [|discriminate].
  destruct (String.eqb t "ddp"); simpl.
  - rewrite orb_false_r. intros ->. eauto.
  - intros ->. eauto.
Qed.

(** C3: a failed delivery to a service under test is logged and counts as
    a success, so it never turns the answer into a 500; a failed delivery
    to any other service is answered 500.  With one failing and one
    succeeding service, both deliveries are attempted, and the answer is
    200 when the failing service is under test and 500 otherwise, in either
    configuration order and either completion order. *)
Theorem test_service_isolation :
  (forall t sched i j drow c name err,
      t !! i = Some drow -> drow !! j = Some (Issued c name true) ->
      (is_error c err = true ->
       complete c name true (Fails err)
       = (Fulfilled VUndef, [Warn (name +:+ " test service errored")]))
      /\ (forall srow,
             is_error c err = true ->
             settled (run (start t) sched) !! i = Some srow ->
             srow !! j = Some None ->
             settled (callback (run (start t) sched) i j (Fails err))
             = <[i := <[j := Some (Fulfilled VUndef)]> srow]>
                 (settled (run (start t) sched))
             /\ In (Warn (name +:+ " test service errored"))
                   (journal (callback (run (start t) sched) i j (Fails err))))
      /\ forall r,
          responded (callback (run (start t) sched) i j (Fails err))
          = Some (Response 500 (Failure r)) ->
          responded (run (start t) sched) = Some (Response 500 (Failure r)))
  /\ (forall t sched i j drow c name srow err,
         t !! i = Some drow -> drow !! j = Some (Issued c name false) ->
         settled (run (start t) sched) !! i = Some srow ->
         srow !! j = Some None ->
         is_error c err = true ->
         responded (run (start t) sched) = None ->
         responded (callback (run (start t) sched) i j (Fails err))
         = Some (Response 500 (Failure (Remote err))))
  /\ (forall clients a sa b sb svcs ia ib facebookId item time err res sched,
         deliverable clients a sa = true -> deliverable clients b sb = true ->
         matches sa item = true -> matches sb item = true ->
         truthy err = true ->
         (svcs = [(a, sa); (b, sb)] /\ ia = 0 /\ ib = 1)
         \/ (svcs = [(b, sb); (a, sa)] /\ ia = 1 /\ ib = 0) ->
         sched = [(0, ia, Fails err); (0, ib, Succeeds res)]
         \/ sched = [(0, ib, Succeeds res); (0, ia, Fails err)] ->
         (exists ca cb,
             push clients a sa facebookId item time = Issued ca a (test sa)
             /\ push clients b sb facebookId item time = Issued cb b (test sb)
             /\ In ca (calls [pushItem clients svcs facebookId item time])
             /\ In cb (calls [pushItem clients svcs facebookId item time]))
         /\ (test sa = true ->
             responded (run (start [pushItem clients svcs facebookId item time]) sched)
             = Some (Response 200 (Text "OK")))
         /\ (test sa = false ->
             responded (run (start [pushItem clients svcs facebookId item time]) sched)
             = Some (Response 500 (Failure (Remote err))))).
Proof.
  split; [|split].
  - intros t sched i j drow c name err Hi Hj.
    split; [intros He; by rewrite (complete_error _ _ _ _ He)|]. split.
    { intros srow He Hs Hp.
      destruct (callback_pending (run (start t) sched) i j (Fails err)
                  drow c name true srow) as (_ & Hset & Hlog);
        try assumption; [by rewrite table_start|].
      rewrite (complete_error _ _ _ _ He) in Hset, Hlog.
      split; [exact Hset|]. apply Hlog. by left. }
    intros r Hr.
    apply responded_500 in Hr; [|apply callback_inv, reachable_inv].
    apply responded_500; [apply reachable_inv|].
    rewrite <- Hr. symmetry.
    eapply callback_suppressed; eauto. by rewrite table_start.
  - intros t sched i j drow c name srow err Hi Hj Hs Hp He Hr.
    eapply callback_failure_responds; eauto using reachable_inv.
    by rewrite table_start.
  - intros clients a sa b sb svcs ia ib facebookId item time err res sched
           Ha Hb Hma Hmb Herr Hcfg Hsched.
    destruct (push_deliverable clients a sa facebookId item time Ha) as (ca & Hca).
    destruct (push_deliverable clients b sb facebookId item time Hb) as (cb & Hcb).
    destruct Hcfg as [(-> & -> & ->)|(-> & -> & ->)];
      simpl; rewrite Hma, Hmb, Hca, Hcb;
      (split; [exists ca, cb; simpl; tauto|]);
      destruct Hsched as [->| ->];
      split; intros ->;
      destruct ca, cb; unfold start, run, callback; simpl;
      unfold ddp_callback; rewrite ?Herr; reflexivity.
Qed.

Lemma test_service_isolation_witness :
  (responded
     (run (start [pushItem []
                    [("staging", http_service None true "http://staging.example/hook");
                     ("crm", http_service None false "http://crm.example/hook")]
                    (VStr "42") feed_item (VNum 1000)])
          [(0, 0, Fails (VStr "ECONNREFUSED")); (0, 1, Succeeds VNull)])
   = Some (Response 200 (Text "OK")))
  /\ (responded
        (run (start [pushItem [] two_services (VStr "42") feed_item (VNum 1000)])
             [(0, 1, Succeeds VNull); (0, 0, Fails (VStr "ECONNREFUSED"))])
      = Some (Response 500 (Failure (Remote (VStr "ECONNREFUSED")))))
  /\ (exists ca cb,
         push [] "crm" (http_service None false "http://crm.example/hook")
              (VStr "42") feed_item (VNum 1000)
         = Issued ca "crm" false
         /\ push [] "audit" (http_service None false "http://audit.example/hook")
                 (VStr "42") feed_item (VNum 1000)
            = Issued cb "audit" false
         /\ In ca (calls [pushItem [] two_services (VStr "42") feed_item (VNum 1000)])
         /\ In cb (calls [pushItem [] two_services (VStr "42") feed_item (VNum 1000)]))
  /\ (settled
        (callback
           (run (start [pushItem []
                          [("staging", http_service None true "http://staging.example/hook");
                           ("crm", http_service None false "http://crm.example/hook")]
                          (VStr "42") feed_item (VNum 1000)]) [])
           0 0 (Fails (VStr "ECONNREFUSED")))
      = [[Some (Fulfilled VUndef); None]]
      /\ In (Warn "staging test service errored")
            (journal
               (callback
                  (run (start [pushItem []
                                 [("staging", http_service None true "http://staging.example/hook");
                                  ("crm", http_service None false "http://crm.example/hook")]
                                 (VStr "42") feed_item (VNum 1000)]) [])
                  0 0 (Fails (VStr "ECONNREFUSED")))))
  /\ responded
       (callback
          (run (start [pushItem [] two_services (VStr "42") feed_item (VNum 1000)]) [])
          0 0 (Fails (VStr "ECONNREFUSED")))
     = Some (Response 500 (Failure (Remote (VStr "ECONNREFUSED")))).
Proof.
  destruct test_service_isolation as (Hsup & Hprop & H).
  split; [|split; [|split; [|split]]].
  - apply (H [] "staging" (http_service None true "http://staging.example/hook")
             "crm" (http_service None false "http://crm.example/hook")
             _ 0 1 (VStr "42") feed_item (VNum 1000)
             (VStr "ECONNREFUSED") VNull _
             eq_refl eq_refl eq_refl eq_refl eq_refl
             (or_introl (conj eq_refl (conj eq_refl eq_refl)))
             (or_introl eq_refl)).
    reflexivity.
  - apply (H [] "crm" (http_service None false "http://crm.example/hook")
             "audit" (http_service None false "http://audit.example/hook")
             _ 0 1 (VStr "42") feed_item (VNum 1000)
             (VStr "ECONNREFUSED") VNull _
             eq_refl eq_refl eq_refl eq_refl eq_refl
             (or_introl (conj eq_refl (conj eq_refl eq_refl)))
             (or_intror eq_refl)).
    reflexivity.
  - apply (H [] "crm" (http_service None false "http://crm.example/hook")
             "audit" (http_service None false "http://audit.example/hook")
             _ 0 1 (VStr "42") feed_item (VNum 1000)
             (VStr "ECONNREFUSED") VNull _
             eq_refl eq_refl eq_refl eq_refl eq_refl
             (or_introl (conj eq_refl (conj eq_refl eq_refl)))
             (or_introl eq_refl)).
  - pose proof (Hsup [pushItem []
                        [("staging", http_service None true "http://staging.example/hook");
                         ("crm", http_service None false "http://crm.example/hook")]
                        (VStr "42") feed_item (VNum 1000)]
                     [] 0 0 _ _ "staging" (VStr "ECONNREFUSED") eq_refl eq_refl)
      as (_ & Hset & _).
    exact (Hset _ eq_refl eq_refl eq_refl).
  - exact (Hprop [pushItem [] two_services (VStr "42") feed_item (VNum 1000)]
                 [] 0 0 _ _ "crm" _ (VStr "ECONNREFUSED")
                 eq_refl eq_refl eq_refl eq_refl eq_refl eq_refl).
Defined.

(** ** Unsupported transports *)

(** A transport that is neither [ddp], [http] nor a name inherited from
    [Object.prototype] is rejected at once with the string of [pushItem],
    whether or not the service is under test. *)
Lemma push_unsupported clients name s facebookId item time :
  (forall t, type s = Some t ->
             t <> "ddp" /\ t <> "http" /\ inherited t = false) ->
  push clients name s facebookId item time = Immediate not_supported.
Proof.
  intros H. unfold push. destruct (type s) as [t|]; [|reflexivity].
  destruct (H t eq_refl) as (Hd & Hh & Hi).
  apply String.eqb_neq in Hd, Hh. by rewrite Hd, Hh, Hi.
Qed.

(** C8, at the input where the code departs from it: a transport named
    after a member of [Object.prototype] is found on the object [Push]
    returns, calling it raises a TypeError, and the request is answered 500
    with that TypeError instead of the string of [pushItem]. *)
Theorem unsupported_type_inherited_name :
  (forall clients name flds tst tok u mn facebookId item time,
      push clients name (Service (Some "constructor") flds tst tok u mn)
           facebookId item time
      = Immediate TypeError)
  /\ (forall clients tst sched,
         responded
           (run (start (pushAll clients
                          [("crm", Service (Some "constructor") None tst None
                                           "http://crm.example/hook" "")]
                          [feed_entry]))
                sched)
         = Some (Response 500 (Failure TypeError)))
  /\ Failure TypeError <> Failure not_supported.
Proof.
  split; [reflexivity|]. split; [|discriminate].
  intros clients tst sched. eapply immediate_first. reflexivity.
Qed.

(** * Further properties *)

(** One pass over the conditions the chain of middleware tests. *)
Ltac chain_cases req hmac secret :=
  unfold app, middleware, chain, validateRequest, authorizeFacebook,
    verifyHubSignature, handler;
  destruct (loose_eq (hub_mode req) (Some "subscribe")) eqn:Hmode;
  destruct (x_hub_signature req) as [sig|] eqn:Hsig;
  try destruct (String.eqb sig "") eqn:Hempty;
  destruct (rawBody req) as [raw|] eqn:Hraw;
  try destruct (String.eqb ("sha1=" +:+ hmac secret raw) sig) eqn:Hmac;
  destruct (loose_eq (object (body req)) (Some "page")) eqn:Hpage;
  simpl.

(** ** The chain of middleware *)

Lemma sha1_prefix_nonempty h : String.eqb ("sha1=" +:+ h) "" = false.
Proof. reflexivity. Qed.

(** X1: the chain reaches the fan-out exactly for a request that is not a
    handshake, whose raw body was captured, whose signature header equals
    ["sha1=" + hex(HMAC-SHA1(secret, rawBody))] and whose body has
    [object == "page"]; all four stages then ran.  In particular nothing is
    ever dispatched for an unsigned request, although [verifyHubSignature]
    alone lets a request without the header through. *)
Theorem app_fanout_iff hmac secret tok svcs clients (req : request) :
  (forall stages cs g l,
      app hmac secret tok svcs clients req = (stages, Fanout cs g, l) ->
      hub_mode req <> Some "subscribe"
      /\ (exists raw, rawBody req = Some raw
                      /\ x_hub_signature req
                         = Some ("sha1=" +:+ hmac secret raw))
      /\ object (body req) = Some "page"
      /\ stages = [ValidateRequest; AuthorizeFacebook; VerifyHubSignature; Handler]
      /\ cs = calls (pushAll clients svcs (entries (body req)))
      /\ g = start (pushAll clients svcs (entries (body req))))
  /\ (hub_mode req <> Some "subscribe" ->
      (exists raw, rawBody req = Some raw
                   /\ x_hub_signature req = Some ("sha1=" +:+ hmac secret raw)) ->
      object (body req) = Some "page" ->
      exists l,
        app hmac secret tok svcs clients req
        = ([ValidateRequest; AuthorizeFacebook; VerifyHubSignature; Handler],
           Fanout (calls (pushAll clients svcs (entries (body req))))
                  (start (pushAll clients svcs (entries (body req)))),
           l)).
Proof.
  split.
  - intros stages cs g l.
    chain_cases req hmac secret; try destruct (loose_eq (hub_verify_token req) tok);
      simpl; intros H; inversion H; subst;
      apply loose_eq_false in Hmode; apply loose_eq_spec in Hpage;
      apply String.eqb_eq in Hmac; subst sig; repeat split; eauto.
  - intros Hm (raw & Hraw & Hsig) Hpage.
    apply loose_eq_false in Hm. apply loose_eq_spec in Hpage.
    unfold app, middleware, chain, validateRequest, authorizeFacebook,
      verifyHubSignature, handler.
    rewrite Hm, Hsig, Hraw, Hpage, sha1_prefix_nonempty, String.eqb_refl. simpl.
    eexists. reflexivity.
Qed.

Lemma app_fanout_iff_witness :
  exists l,
    app String.append "secret" (Some "token") two_services []
        (signed_post (Envelope (Some "page") [feed_entry]))
    = ([ValidateRequest; AuthorizeFacebook; VerifyHubSignature; Handler],
       Fanout (calls (pushAll [] two_services [feed_entry]))
              (start (pushAll [] two_services [feed_entry])),
       l).
Proof.
  destruct (app_fanout_iff String.append "secret" (Some "token") two_services []
              (signed_post (Envelope (Some "page") [feed_entry]))) as [_ H].
  apply H; [discriminate | by exists "{}" | reflexivity].
Defined.



(** X3: a request with a non-empty signature header that differs from the
    signature of the captured raw body is answered 400 "Invalid signature";
    the handler never runs. *)
Theorem app_invalid_signature hmac secret tok svcs clients (req : request)
        sig raw :
  hub_mode req <> Some "subscribe" ->
  x_hub_signature req = Some sig -> sig <> "" ->
  rawBody req = Some raw ->
  sig <> "sha1=" +:+ hmac secret raw ->
  app hmac secret tok svcs clients req
  = ([ValidateRequest; AuthorizeFacebook; VerifyHubSignature],
     Replied (Response 400 (Text "Invalid signature")),
     [Warn "Invalid signature from hub challenge"]).
Proof.
  intros Hm Hsig Hne Hraw Hbad.
  apply loose_eq_false in Hm. apply String.eqb_neq in Hne.
  assert (String.eqb ("sha1=" +:+ hmac secret raw) sig = false) as Heq
    by (apply String.eqb_neq; congruence).
  unfold app, middleware, chain, validateRequest, authorizeFacebook,
    verifyHubSignature.
  by rewrite Hm, Hsig, Hraw, Hne, Heq.
Qed.

Lemma app_invalid_signature_witness :
  app String.append "secret" (Some "token") two_services []
      (post "sha1=00" (Some "{}") (Envelope (Some "page") [feed_entry]))
  = ([ValidateRequest; AuthorizeFacebook; VerifyHubSignature],
     Replied (Response 400 (Text "Invalid signature")),
     [Warn "Invalid signature from hub challenge"]).
Proof.
  apply (app_invalid_signature String.append "secret" (Some "token")
           two_services []
           (post "sha1=00" (Some "{}") (Envelope (Some "page") [feed_entry]))
           "sha1=00" "{}");
    [discriminate | reflexivity | discriminate | reflexivity | discriminate].
Defined.

(** X4: the chain answers "pong" exactly when the request is not a handshake
    and its signature header is absent or empty: an empty header counts as
    no header. *)
Theorem app_pong_iff hmac secret tok svcs clients (req : request) :
  (exists l, app hmac secret tok svcs clients req
             = ([ValidateRequest], Replied (Response 200 (Text "pong")), l))
  <-> hub_mode req <> Some "subscribe"
      /\ (x_hub_signature req = None \/ x_hub_signature req = Some "").
Proof.
  split.
  - intros (l & H). revert H.
    chain_cases req hmac secret; try destruct (loose_eq (hub_verify_token req) tok);
      simpl; intros H; inversion H; subst;
      apply loose_eq_false in Hmode; (split; [exact Hmode|]); auto;
      apply String.eqb_eq in Hempty; subst; auto.
  - intros (Hm & Hs). apply loose_eq_false in Hm.
    unfold app, middleware, chain, validateRequest.
    rewrite Hm. destruct Hs as [-> | ->]; simpl; eauto.
Qed.


(** ** Body capture *)

Section Capture.

Variable toString : string -> string -> string.
Variable hmac : string -> string -> string.

(** X6: on a request with a signature header, a non-empty buffer is stored
    as its decoding, with "utf8" when no encoding is given, and the verifier
    passes exactly when the header is the signature of that decoded string;
    an absent or empty buffer leaves the request as it was, and the verifier
    throws. *)
Theorem verify_then_verifyHubSignature secret (req : request) buf encoding sig :
  rawBody req = None ->
  x_hub_signature req = Some sig ->
  (forall b, buf = Some b -> b <> "" ->
     exists enc,
       rawBody (verify toString req buf encoding) = Some (toString b enc)
       /\ (enc = "utf8" \/ (encoding = Some enc /\ enc <> ""))
       /\ (verifyHubSignature hmac secret (verify toString req buf encoding)
           = (Next, [])
           <-> sig = "sha1=" +:+ hmac secret (toString b enc)))
  /\ (buf = None \/ buf = Some "" ->
      verify toString req buf encoding = req
      /\ verifyHubSignature hmac secret (verify toString req buf encoding)
         = (Throw TypeError, [])).
Proof.
  intros Hraw Hsig. split.
  - intros b -> Hb. unfold verify.
    assert (Nat.eqb (String.length b) 0 = false) as ->.
    { apply Nat.eqb_neq. destruct b; [done|simpl; lia]. }
    simpl negb. cbv iota.
    set (enc := match encoding with
                | Some e => if negb (String.eqb e "") then e else "utf8"
                | None => "utf8"
                end).
    exists enc. split; [reflexivity|]. split.
    { subst enc. destruct encoding as [e|]; [|by left].
      destruct (String.eqb_spec e ""); simpl; [by left|right; auto]. }
    unfold verifyHubSignature. cbn [x_hub_signature rawBody]. rewrite Hsig.
    destruct (String.eqb_spec ("sha1=" +:+ hmac secret (toString b enc)) sig)
      as [Heq|Hne]; cbn [negb].
    + split; [intros _; by symmetry|reflexivity].
    + split; [discriminate|]. intros ->. by destruct Hne.
  - intros [-> | ->]; simpl; (split; [reflexivity|]);
      unfold verifyHubSignature; by rewrite Hsig, Hraw.
Qed.

End Capture.

Lemma verify_then_verifyHubSignature_witness :
  verifyHubSignature String.append "secret"
    (verify (fun b _ => b)
            (post "sha1=secret{}" None (Envelope (Some "page") []))
            (Some "{}") None)
  = (Next, [])
  /\ verifyHubSignature String.append "secret"
       (verify (fun b _ => b)
               (post "sha1=secret{}" None (Envelope (Some "page") []))
               (Some "") None)
     = (Throw TypeError, []).
Proof.
  destruct (verify_then_verifyHubSignature (fun b _ => b) String.append "secret"
              (post "sha1=secret{}" None (Envelope (Some "page") []))
              (Some "{}") None "sha1=secret{}" eq_refl eq_refl) as [H _].
  destruct (verify_then_verifyHubSignature (fun b _ => b) String.append "secret"
              (post "sha1=secret{}" None (Envelope (Some "page") []))
              (Some "") None "sha1=secret{}" eq_refl eq_refl) as [_ H'].
  split.
  - destruct (H "{}" eq_refl) as (enc & _ & _ & Hiff); [discriminate|].
    apply Hiff. reflexivity.
  - apply H'. by right.
Defined.

(** ** Subscription filter, continued *)

(** X7: an item with neither a truthy [field] nor a truthy [sender] matches
    a service exactly when the field list of the service is absent or
    empty. *)
Theorem filter_other_shape (s : service) (item : obj) :
  truthy (get "field" item) = false ->
  truthy (get "sender" item) = false ->
  (matches s item = true <-> fields s = None \/ fields s = Some []).
Proof.
  intros Hf Hs. unfold matches, validateFields. rewrite Hf, Hs.
  destruct (fields s) as [[|f fs]|]; simpl; split; auto;
    try discriminate; intros [H|H]; discriminate.
Qed.

Lemma filter_other_shape_witness :
  matches (http_service None false "http://crm.example/hook") bare_item = true
  /\ matches (http_service (Some ["feed"]) false "http://crm.example/hook")
             bare_item = false.
Proof.
  split.
  - apply (filter_other_shape
             (http_service None false "http://crm.example/hook") bare_item
             eq_refl eq_refl). by left.
  - apply not_true_is_false. intros H.
    apply (filter_other_shape
             (http_service (Some ["feed"]) false "http://crm.example/hook")
             bare_item eq_refl eq_refl) in H.
    destruct H as [H|H]; discriminate.
Defined.

(** X8: a service whose non-empty field list contains no name of
    [MESSAGE_FIELD_MAP] matches no messaging event, whatever keys the event
    carries. *)
Theorem filter_untranslated (s : service) (fs : list string) (item : obj) :
  isMessagingEvent item = true ->
  fields s = Some fs -> fs <> [] ->
  (forall f, In f fs -> MESSAGE_FIELD_MAP f = None) ->
  matches s item = false.
Proof.
  intros Hm Hfs Hne Hnone. apply not_true_is_false. intros H.
  unfold matches in H. rewrite Hfs in H.
  destruct fs as [|f0 fs']; [done|]. simpl Nat.eqb in H. rewrite orb_false_l in H.
  apply (validateFields_messaging _ _ Hm) in H as (f & key & Hin & Hk & _).
  rewrite (Hnone f Hin) in Hk. discriminate.
Qed.

Lemma filter_untranslated_witness :
  matches (http_service (Some ["message"; "feed"]) false "http://crm.example/hook")
          message_item = false.
Proof.
  apply (filter_untranslated
           (http_service (Some ["message"; "feed"]) false "http://crm.example/hook")
           ["message"; "feed"] message_item eq_refl eq_refl); [discriminate|].
  intros f [<-|[<-|[]]]; reflexivity.
Defined.

Lemma MESSAGE_FIELD_MAP_injective f1 f2 key :
  MESSAGE_FIELD_MAP f1 = Some key -> MESSAGE_FIELD_MAP f2 = Some key -> f1 = f2.
Proof.
  rewrite !MESSAGE_FIELD_MAP_table. simpl.
  intros H1 H2.
  repeat (destruct H1 as [H1|H1]; [inversion H1; subst; clear H1|]); try done;
    repeat (destruct H2 as [H2|H2]; [inversion H2; subst; clear H2|]);
    try done; try discriminate.
Qed.

(** X9: a messaging event that carries the key of one kind only matches a
    service with a non-empty field list exactly when the list contains the
    one field name the table translates to that key. *)
Theorem filter_single_kind (s : service) (fs : list string) (item : obj) f key :
  isMessagingEvent item = true ->
  fields s = Some fs -> fs <> [] ->
  MESSAGE_FIELD_MAP f = Some key ->
  In key (keys item) ->
  (forall f' key', MESSAGE_FIELD_MAP f' = Some key' ->
                   In key' (keys item) -> key' = key) ->
  (matches s item = true <-> In f fs).
Proof.
  intros Hm Hfs Hne Hk Hin Honly. unfold matches. rewrite Hfs.
  destruct fs as [|f0 fs']; [done|]. simpl Nat.eqb. rewrite orb_false_l.
  rewrite (validateFields_messaging _ _ Hm). split.
  - intros (f' & key' & Hf' & Hk' & Hin').
    pose proof (Honly f' key' Hk' Hin') as ->.
    by rewrite (MESSAGE_FIELD_MAP_injective f f' key Hk Hk').
  - intros Hf. eauto.
Qed.

Lemma filter_single_kind_witness :
  matches (http_service (Some ["feed"; "message_deliveries"]) false
                        "http://crm.example/hook")
          delivery_item = true.
Proof.
  apply (filter_single_kind
           (http_service (Some ["feed"; "message_deliveries"]) false
                         "http://crm.example/hook")
           ["feed"; "message_deliveries"] delivery_item
           "message_deliveries" "delivery" eq_refl eq_refl).
  - discriminate.
  - reflexivity.
  - simpl. tauto.
  - intros f' key' Hk [<-|[<-|[]]]; [|reflexivity].
    apply MESSAGE_FIELD_MAP_table in Hk. simpl in Hk.
    repeat (destruct Hk as [Hk|Hk]; [discriminate|]). destruct Hk.
  - simpl. tauto.
Defined.

(** ** Envelope and calls *)

(** X10: two equal outbound envelopes have the same account id and time,
    and the same item when the item carries a truthy [field] or [sender]. *)
Theorem getBody_injective facebookId time item facebookId' time' item' :
  getBody facebookId time item = getBody facebookId' time' item' ->
  facebookId = facebookId' /\ time = time'
  /\ (truthy (get "field" item) || truthy (get "sender" item) = true ->
      item = item').
Proof.
  rewrite !getBody_page. unfold page.
  destruct (truthy (get "field" item)), (truthy (get "sender" item)),
    (truthy (get "field" item')), (truthy (get "sender" item'));
    simpl; intros H; inversion H; subst; repeat split; auto; discriminate.
Qed.

Lemma getBody_injective_witness :
  VStr "42" = VStr "42" /\ VNum 1000 = VNum 1000
  /\ (truthy (get "field" feed_item) || truthy (get "sender" feed_item) = true ->
      feed_item = feed_item).
Proof.
  apply (getBody_injective (VStr "42") (VNum 1000) feed_item
           (VStr "42") (VNum 1000) feed_item). reflexivity.
Defined.

Lemma push_issued_deliverable clients name s facebookId item time c n b :
  push clients name s facebookId item time = Issued c n b ->
  deliverable clients name s = true.
Proof.
  unfold push, deliverable, Push_ddp, Push_http.
  destruct (type s) as [t|]; [|discriminate].
  destruct (String.eqb t "ddp"); simpl.
  - destruct (existsb (String.eqb name) clients); [done|discriminate].
  - destruct (String.eqb t "http"); [done|].
    destruct (inherited t); discriminate.
Qed.

(** X11: the calls issued for an item are exactly the calls of the
    configured services that match it and can be called (an [http] service,
    or a [ddp] service with a connected client). *)
Theorem issued_calls_iff clients svcs facebookId item time c :
  In c (issued (pushItem clients svcs facebookId item time))
  <-> exists name s,
        In (name, s) svcs /\ matches s item = true
        /\ deliverable clients name s = true
        /\ push clients name s facebookId item time = Issued c name (test s).
Proof.
  induction svcs as [|[name s] svcs IH]; simpl.
  - split; [tauto|]. intros (? & ? & [] & _).
  - destruct (matches s item) eqn:Hm.
    + simpl. rewrite in_app_iff, IH. split.
      * intros [H|(name' & s' & Hin & H)].
        -- destruct (push clients name s facebookId item time) as [r|r|c' n b] eqn:Hp;
             simpl in H; try tauto.
           destruct H as [->|[]].
           pose proof (push_issued_deliverable _ _ _ _ _ _ _ _ _ Hp) as Hd.
           apply push_envelope in Hp as Hp'. destruct Hp' as (_ & -> & ->).
           exists name, s. auto.
        -- exists name', s'. tauto.
      * intros (name' & s' & [Heq|Hin] & Hm' & Hd & Hp).
        -- inversion Heq; subst. left. rewrite Hp. by left.
        -- right. exists name', s'. auto.
    + rewrite IH. split.
      * intros (name' & s' & Hin & H). exists name', s'. tauto.
      * intros (name' & s' & [Heq|Hin] & Hm' & H).
        -- inversion Heq; subst. congruence.
        -- exists name', s'. auto.
Qed.

Lemma pushEntry_items clients svcs e :
  pushEntry clients svcs e
  = map (fun item => pushItem clients svcs (id e) item (time e)) (entry_items e).
Proof.
  unfold pushEntry, entry_items.
  destruct (changes e); [reflexivity|]. by destruct (messaging e).
Qed.

Lemma pushItem_length clients svcs facebookId item time :
  length (pushItem clients svcs facebookId item time) <= length svcs.
Proof.
  induction svcs as [|[name s] svcs IH]; simpl; [lia|].
  destruct (matches s item); simpl; lia.
Qed.

Lemma issued_length row : length (issued row) <= length row.
Proof.
  induction row as [|[r|r|c n b] row IH]; simpl; lia.
Qed.

(** X12: one row of promises is built per member of the array the loop
    iterates in each entry, and a request issues at most (number of those
    items) x (number of configured services) calls. *)
Theorem calls_bound clients svcs es :
  length (pushAll clients svcs es)
  = list_sum (map (fun e => length (entry_items e)) es)
  /\ length (calls (pushAll clients svcs es))
     <= list_sum (map (fun e => length (entry_items e)) es) * length svcs.
Proof.
  unfold pushAll, calls.
  induction es as [|e es [IH1 IH2]]; simpl; [split; reflexivity|].
  rewrite length_app, flat_map_app, length_app, IH1, pushEntry_items, length_map.
  split; [reflexivity|].
  assert (length (flat_map issued
            (map (fun item => pushItem clients svcs (id e) item (time e))
                 (entry_items e)))
          <= length (entry_items e) * length svcs).
  { induction (entry_items e) as [|item items IHi]; simpl; [lia|].
    rewrite length_app.
    pose proof (issued_length (pushItem clients svcs (id e) item (time e))).
    pose proof (pushItem_length clients svcs (id e) item (time e)). lia. }
  lia.
Qed.

(** ** Promises of a request *)

Lemma deliver_idle g i j r l :
  promise_at g i j <> Some None -> deliver g i j r l = g.
Proof.
  unfold promise_at, deliver. destruct (settled g !! i) as [row|]; [|done].
  destruct (row !! j) as [[x|]|]; done.
Qed.

Lemma deliver_here g i j r l :
  promise_at g i j = Some None ->
  promise_at (deliver g i j r l) i j = Some (Some r).
Proof.
  unfold promise_at, deliver. destruct (settled g !! i) as [row|] eqn:Hi; [|done].
  intros Hj. rewrite Hj. simpl.
  rewrite list_lookup_insert_eq by (eapply lookup_lt_Some; eauto).
  apply list_lookup_insert_eq. eapply lookup_lt_Some; eauto.
Qed.

Lemma deliver_elsewhere g i j r l i' j' :
  (i', j') <> (i, j) ->
  promise_at (deliver g i j r l) i' j' = promise_at g i' j'.
Proof.
  intros Hne. unfold promise_at at 1, deliver.
  destruct (settled g !! i) as [row|] eqn:Hi; [|done].
  destruct (row !! j) as [[x|]|] eqn:Hj; try done.
  simpl. unfold promise_at.
  destruct (decide (i' = i)) as [->|Hi'].
  - rewrite list_lookup_insert_eq by (eapply lookup_lt_Some; eauto).
    rewrite Hi. apply list_lookup_insert_ne. congruence.
  - by rewrite list_lookup_insert_ne.
Qed.

Lemma deliver_keeps g i j r l i' j' x :
  promise_at g i' j' = Some (Some x) ->
  promise_at (deliver g i j r l) i' j' = Some (Some x).
Proof.
  intros H. destruct (decide ((i', j') = (i, j))) as [Heq|Hne].
  - inversion Heq; subst. rewrite deliver_idle; [done|]. congruence.
  - by rewrite deliver_elsewhere.
Qed.

Lemma deliver_valid g i j r l i' j' :
  is_Some (promise_at g i' j') -> is_Some (promise_at (deliver g i j r l) i' j').
Proof.
  intros H. destruct (decide ((i', j') = (i, j))) as [Heq|Hne].
  - inversion Heq; subst.
    destruct (promise_at g i j) as [[x|]|] eqn:Hp.
    + rewrite deliver_idle; [by rewrite Hp|]. congruence.
    + rewrite deliver_here; eauto.
    + by destruct H.
  - by rewrite deliver_elsewhere.
Qed.

Lemma callback_keeps g i j o i' j' x :
  promise_at g i' j' = Some (Some x) ->
  promise_at (callback g i j o) i' j' = Some (Some x).
Proof.
  intros H. unfold callback. destruct (table g !! i) as [row|]; [|done].
  destruct (row !! j) as [[r|r|c name sup]|]; try done.
  destruct (complete c name sup o). by apply deliver_keeps.
Qed.

Lemma callback_valid g i j o i' j' :
  is_Some (promise_at g i' j') -> is_Some (promise_at (callback g i j o) i' j').
Proof.
  intros H. unfold callback. destruct (table g !! i) as [row|]; [|done].
  destruct (row !! j) as [[r|r|c name sup]|]; try done.
  destruct (complete c name sup o). by apply deliver_valid.
Qed.

Lemma run_keeps sched : forall g i j x,
  promise_at g i j = Some (Some x) ->
  promise_at (run g sched) i j = Some (Some x).
Proof.
  induction sched as [|[[i' j'] o] sched IH]; intros g i j x H; simpl; [done|].
  by apply IH, callback_keeps.
Qed.

Lemma reject_all_keeps l : forall g i j x,
  promise_at g i j = Some (Some x) ->
  promise_at (reject_all g l) i j = Some (Some x).
Proof.
  induction l as [|[[i' j'] r] l IH]; intros g i j x H; simpl; [done|].
  by apply IH, deliver_keeps.
Qed.

Lemma reject_all_valid l : forall g i j,
  is_Some (promise_at g i j) -> is_Some (promise_at (reject_all g l) i j).
Proof.
  induction l as [|[[i' j'] r] l IH]; intros g i j H; simpl; [done|].
  by apply IH, deliver_valid.
Qed.

Lemma run_valid sched : forall g i j,
  is_Some (promise_at g i j) -> is_Some (promise_at (run g sched) i j).
Proof.
  induction sched as [|[[i' j'] o] sched IH]; intros g i j H; simpl; [done|].
  by apply IH, callback_valid.
Qed.

(** Once delivered to, a promise is settled. *)
Lemma deliver_settles g i j r l :
  is_Some (promise_at g i j) ->
  exists x, promise_at (deliver g i j r l) i j = Some (Some x).
Proof.
  intros [[x|] Hp].
  - exists x. rewrite deliver_idle; [done|]. congruence.
  - exists r. by apply deliver_here.
Qed.

Lemma reject_all_settles l : forall g i j r,
  In (i, j, r) l -> is_Some (promise_at g i j) ->
  exists x, promise_at (reject_all g l) i j = Some (Some x).
Proof.
  induction l as [|[[i' j'] r'] l IH]; intros g i j r Hin Hv; simpl; [destruct Hin|].
  destruct Hin as [Heq|Hin].
  - inversion Heq; subst.
    destruct (deliver_settles g i j (Rejected r) [] Hv) as (x & Hx).
    exists x. by apply reject_all_keeps.
  - eapply IH; eauto. by apply deliver_valid.
Qed.

Lemma run_settles sched : forall g i j o drow c n b,
  In (i, j, o) sched ->
  table g !! i = Some drow -> drow !! j = Some (Issued c n b) ->
  is_Some (promise_at g i j) ->
  exists x, promise_at (run g sched) i j = Some (Some x).
Proof.
  induction sched as [|[[i' j'] o'] sched IH]; intros g i j o drow c n b Hin Hi Hj Hv;
    simpl; [destruct Hin|].
  destruct Hin as [Heq|Hin].
  - inversion Heq; subst.
    assert (exists x, promise_at (callback g i j o) i j = Some (Some x)) as (x & Hx).
    { unfold callback. rewrite Hi, Hj. destruct (complete c n b o).
      by apply deliver_settles. }
    exists x. by apply run_keeps.
  - eapply IH; eauto using callback_valid. by rewrite table_callback.
Qed.

Lemma fresh_valid t i j row d :
  t !! i = Some row -> row !! j = Some d ->
  promise_at (fresh t) i j = Some None.
Proof.
  intros Hi Hj. destruct (fresh_pending t i j row d Hi Hj) as (srow & Hs & Hp).
  unfold promise_at. by rewrite Hs.
Qed.

(** After the microtasks, and ever after, a pending promise is the
    promise of an issued call. *)
Lemma pending_is_issued t sched i j :
  promise_at (run (start t) sched) i j = Some None ->
  exists row c n b, t !! i = Some row /\ row !! j = Some (Issued c n b).
Proof.
  intros Hp.
  pose proof (inv_shape _ (reachable_inv t sched)) as Hshape.
  rewrite table_start in Hshape.
  unfold promise_at in Hp.
  destruct (settled (run (start t) sched) !! i) as [srow|] eqn:Hs; [|done].
  destruct (Forall2_lookup_l _ _ _ _ _ Hshape Hs) as (row & Hi & Hlen).
  assert (is_Some (row !! j)) as [d Hj].
  { apply lookup_lt_is_Some. rewrite <- Hlen. eapply lookup_lt_Some; eauto. }
  assert (Hsettled : forall sel r, sel d = Some r ->
            In (i, j, r) (rejections_from sel 0 t)).
  { intros sel r Hsel. apply (rejections_from_in sel t 0 i row j d r); auto. }
  destruct d as [r|r|c n b]; [| |by eauto 6]; exfalso.
  - pose proof (Hsettled at_creation r eq_refl) as Hin.
    destruct (reject_all_settles _ (fresh t) i j r Hin) as (x & Hx).
    { rewrite (fresh_valid t i j row _ Hi Hj). eauto. }
    apply (reject_all_keeps (rejections_from after_creation 0 t)) in Hx.
    apply (run_keeps sched) in Hx. fold (start t) in Hx.
    unfold promise_at in Hx. rewrite Hs in Hx. congruence.
  - pose proof (Hsettled after_creation r eq_refl) as Hin.
    destruct (reject_all_settles _
                (reject_all (fresh t) (rejections_from at_creation 0 t))
                i j r Hin) as (x & Hx).
    { apply reject_all_valid. rewrite (fresh_valid t i j row _ Hi Hj). eauto. }
    apply (run_keeps sched) in Hx. fold (start t) in Hx.
    unfold promise_at in Hx. rewrite Hs in Hx. congruence.
Qed.

Lemma pending_row_pos (row : list (option result)) :
  0 < pending_row row -> exists j, row !! j = Some None.
Proof.
  induction row as [|[x|] row IH]; simpl; intros H; [lia| |by exists 0].
  destruct (IH H) as (j & Hj). by exists (S j).
Qed.

(** Without an answer, some promise is still pending. *)
Lemma unanswered_pending g :
  inv g -> responded g = None -> exists i j, promise_at g i j = Some None.
Proof.
  intros [_ Hrows Hwhole _ _] Hr. unfold responded in Hr.
  destruct (whole g) as [n| |r]; try discriminate.
  destruct Hwhole as (-> & Hpos & _).
  destruct (pending_row_pos _ Hpos) as (i & Hi).
  rewrite list_lookup_fmap in Hi.
  destruct (perItem g !! i) as [p|] eqn:Hp; [|discriminate].
  destruct p as [m| |r]; try discriminate.
  destruct (Forall2_lookup_r _ _ _ _ _ Hrows Hp) as (row & Hrow & Hok).
  destruct Hok as (-> & Hpos' & _).
  destruct (pending_row_pos _ Hpos') as (j & Hj).
  exists i, j. unfold promise_at. by rewrite Hrow.
Qed.

Lemma run_answers t sched :
  (forall i j row c n b,
      t !! i = Some row -> row !! j = Some (Issued c n b) ->
      exists o, In (i, j, o) sched) ->
  exists r, responded (run (start t) sched) = Some r.
Proof.
  intros Hall.
  destruct (responded (run (start t) sched)) as [r|] eqn:Hr; [eauto|exfalso].
  destruct (unanswered_pending _ (reachable_inv t sched) Hr) as (i & j & Hp).
  destruct (pending_is_issued t sched i j Hp) as (row & c & n & b & Hi & Hj).
  destruct (Hall i j row c n b Hi Hj) as (o & Hin).
  destruct (run_settles sched (start t) i j o row c n b Hin) as (x & Hx).
  - pose proof (table_start t []) as Ht. simpl in Ht. by rewrite Ht.
  - exact Hj.
  - unfold start. do 2 apply reject_all_valid.
    rewrite (fresh_valid t i j row _ Hi Hj). eauto.
  - congruence.
Qed.

Lemma lookup_In {A} (l : list A) i x : l !! i = Some x -> In x l.
Proof. intros H. apply list_elem_of_In. eapply list_elem_of_lookup_2; eauto. Qed.

Lemma In_lookup {A} (l : list A) x : In x l -> exists i, l !! i = Some x.
Proof. intros H. by apply list_elem_of_In, list_elem_of_lookup_1 in H. Qed.

(** ** Requests without subscriber or with a service that cannot be called *)

Lemma pushItem_nil clients svcs facebookId item time :
  (forall name s, In (name, s) svcs -> matches s item = false) ->
  pushItem clients svcs facebookId item time = [].
Proof.
  induction svcs as [|[name s] svcs IH]; intros H; simpl; [done|].
  rewrite (H name s) by (by left). apply IH. intros n' s' Hin. apply (H n' s'). by right.
Qed.

Lemma pushAll_row clients svcs es row :
  In row (pushAll clients svcs es) ->
  exists e item, In e es /\ In item (entry_items e)
                 /\ row = pushItem clients svcs (id e) item (time e).
Proof.
  unfold pushAll. intros H. apply in_flat_map in H as (e & He & Hrow).
  rewrite pushEntry_items in Hrow. apply in_map_iff in Hrow as (item & <- & Hitem).
  eauto.
Qed.

Lemma empty_rows_fulfilled (srows : list (list (option result)))
      (t : list (list dispatch)) :
  Forall2 (fun row drow => length row = length drow) srows t ->
  (forall row, In row t -> row = []) ->
  Forall (Forall fulfilled) srows.
Proof.
  induction 1 as [|srow row srows rows Hlen _ IH]; intros Hrows; constructor.
  - rewrite (Hrows row) in Hlen by (by left).
    destruct srow; [constructor|discriminate].
  - apply IH. intros row' Hr. apply Hrows. by right.
Qed.

(** X13: when no configured service matches any dispatched item, which
    includes an envelope without entries and a configuration without
    services, no call is issued and the answer is 200. *)
Theorem no_subscriber_200 clients svcs es sched :
  (forall name s e item,
      In (name, s) svcs -> In e es -> In item (entry_items e) ->
      matches s item = false) ->
  calls (pushAll clients svcs es) = []
  /\ responded (run (start (pushAll clients svcs es)) sched)
     = Some (Response 200 (Text "OK")).
Proof.
  intros Hno.
  assert (Hrows : forall row, In row (pushAll clients svcs es) -> row = []).
  { intros row Hrow. apply pushAll_row in Hrow as (e & item & He & Hitem & ->).
    apply pushItem_nil. intros name s Hs. eapply Hno; eauto. }
  split.
  - unfold calls. induction (pushAll clients svcs es) as [|row t IH]; simpl; [done|].
    rewrite (Hrows row) by (by left). simpl. apply IH.
    intros row' Hr. apply Hrows. by right.
  - apply responded_200; [apply reachable_inv|].
    pose proof (inv_shape _ (reachable_inv (pushAll clients svcs es) sched)) as Hshape.
    rewrite table_start in Hshape.
    eapply empty_rows_fulfilled; eauto.
Qed.

Lemma no_subscriber_200_witness :
  calls (pushAll [] mention_services [feed_entry]) = []
  /\ responded (run (start (pushAll [] mention_services [feed_entry])) [])
     = Some (Response 200 (Text "OK")).
Proof.
  apply (no_subscriber_200 [] mention_services [feed_entry] []).
  intros name s e item [Hs|[]] [<-|[]] [<-|[]]. by inversion Hs.
Defined.

Lemma start_first_deferred t i j r rest :
  rejections_from at_creation 0 t = [] ->
  rejections_from after_creation 0 t = (i, j, r) :: rest ->
  first_rejection (order (start t)) = Some r.
Proof.
  intros Hnil H. unfold start. rewrite Hnil, H. simpl.
  apply reject_all_first.
  assert (Hin : In (i, j, r) (rejections_from after_creation 0 t))
    by (rewrite H; by left).
  apply rejections_from_valid in Hin as (_ & row & d & Hi & Hj & _).
  replace (i - 0) with i in Hi by lia.
  destruct (fresh_pending t i j row _ Hi Hj) as (srow & Hs & Hp).
  unfold deliver. rewrite Hs, Hp. reflexivity.
Qed.

Lemma push_reason clients name s facebookId item time :
  deliverable clients name s = false ->
  exists r, (push clients name s facebookId item time = Immediate r
             \/ push clients name s facebookId item time = Deferred r)
            /\ (r = not_supported \/ r = TypeError).
Proof.
  unfold deliverable, push, Push_ddp, Push_http.
  destruct (type s) as [t|]; [|eauto].
  destruct (String.eqb t "ddp"); simpl.
  - rewrite orb_false_r. intros ->. eauto.
  - destruct (String.eqb t "http"); [discriminate|]. intros _.
    destruct (inherited t); eauto.
Qed.

Lemma push_rejections clients name s facebookId item time r :
  at_creation (push clients name s facebookId item time) = Some r
  \/ after_creation (push clients name s facebookId item time) = Some r ->
  r = not_supported \/ r = TypeError.
Proof.
  unfold push, Push_ddp, Push_http.
  destruct (type s) as [t|]; [|simpl; intros [H|H]; inversion H; auto].
  destruct (String.eqb t "ddp").
  - destruct (existsb (String.eqb name) clients); simpl;
      intros [H|H]; inversion H; auto.
  - destruct (String.eqb t "http"); [simpl; intros [H|H]; discriminate|].
    destruct (inherited t); simpl; intros [H|H]; inversion H; auto.
Qed.

Lemma pushItem_In clients svcs facebookId item time d :
  In d (pushItem clients svcs facebookId item time)
  <-> exists name s, In (name, s) svcs /\ matches s item = true
                     /\ d = push clients name s facebookId item time.
Proof.
  induction svcs as [|[name s] svcs IH]; simpl.
  - split; [tauto|]. intros (? & ? & [] & _).
  - destruct (matches s item) eqn:Hm; simpl; rewrite IH; split.
    + intros [<-|(n' & s' & Hin & H)]; [exists name, s; auto|exists n', s'; tauto].
    + intros (n' & s' & [Heq|Hin] & Hm' & ->);
        [inversion Heq; subst; by left|right; eauto].
    + intros (n' & s' & Hin & H). exists n', s'. tauto.
    + intros (n' & s' & [Heq|Hin] & Hm' & ->);
        [inversion Heq; subst; congruence|eauto].
Qed.

(** X14: when a service that matches a dispatched item cannot be called (its
    type is neither [ddp] nor [http], or it is a [ddp] service without a
    client), the request is answered 500 with 'Service type not supported'
    or a TypeError, whatever the transports answer and whatever the [test]
    flag. *)
Theorem undeliverable_service_500 clients svcs es e item name s sched :
  In e es -> In item (entry_items e) ->
  In (name, s) svcs -> matches s item = true ->
  deliverable clients name s = false ->
  exists r,
    responded (run (start (pushAll clients svcs es)) sched)
    = Some (Response 500 (Failure r))
    /\ (r = not_supported \/ r = TypeError).
Proof.
  intros He Hitem Hs Hm Hd.
  set (t := pushAll clients svcs es).
  assert (Hreason : forall sel i j r,
            (sel = at_creation \/ sel = after_creation) ->
            In (i, j, r) (rejections_from sel 0 t) ->
            r = not_supported \/ r = TypeError).
  { intros sel i j r Hsel Hin.
    apply rejections_from_valid in Hin as (_ & row & d & Hi & Hj & Hr).
    apply lookup_In in Hi, Hj.
    apply pushAll_row in Hi as (e' & item' & _ & _ & ->).
    apply pushItem_In in Hj as (n' & s' & _ & _ & ->).
    apply (push_rejections clients n' s' (id e') item' (time e')).
    destruct Hsel as [-> | ->]; auto. }
  assert (Hin : exists i j r sel,
            (sel = at_creation \/ sel = after_creation)
            /\ In (i, j, r) (rejections_from sel 0 t)).
  { destruct (push_reason clients name s (id e) item (time e) Hd) as (r & Hp & _).
    assert (In (pushItem clients svcs (id e) item (time e)) t) as Hrow.
    { unfold t, pushAll. apply in_flat_map. exists e. split; [done|].
      rewrite pushEntry_items. apply in_map_iff. eauto. }
    assert (In (push clients name s (id e) item (time e))
               (pushItem clients svcs (id e) item (time e))) as Hdsp
      by (apply pushItem_In; eauto).
    apply In_lookup in Hrow as (i & Hi). apply In_lookup in Hdsp as (j & Hj).
    exists i, j, r.
    destruct Hp as [Hp|Hp]; [exists at_creation|exists after_creation];
      (split; [auto|]);
      apply (rejections_from_in _ t 0 i _ j _ r Hi Hj); by rewrite Hp. }
  assert (exists r, first_rejection (order (start t)) = Some r
                    /\ (r = not_supported \/ r = TypeError)) as (r & Hfirst & Hr).
  { destruct (rejections_from at_creation 0 t) as [|[[i1 j1] r1] rest1] eqn:H1.
    - destruct (rejections_from after_creation 0 t) as [|[[i2 j2] r2] rest2] eqn:H2.
      + destruct Hin as (i & j & r & sel & [-> | ->] & Hin);
          [rewrite H1 in Hin|rewrite H2 in Hin]; destruct Hin.
      + exists r2. split; [eapply start_first_deferred; eauto|].
        apply (Hreason after_creation i2 j2); [auto|]. rewrite H2. by left.
    - exists r1. split; [eapply start_first_immediate; eauto|].
      apply (Hreason at_creation i1 j1); [auto|]. rewrite H1. by left. }
  exists r. split; [|exact Hr].
  apply responded_500; [apply reachable_inv|]. by apply run_first.
Qed.

Lemma undeliverable_service_500_witness :
  exists r,
    responded (run (start (pushAll [] smtp_services [feed_entry]))
                   [(0, 1, Succeeds VNull)])
    = Some (Response 500 (Failure r))
    /\ (r = not_supported \/ r = TypeError).
Proof.
  apply (undeliverable_service_500 [] smtp_services [feed_entry] feed_entry
           feed_item "mail" (Service (Some "smtp") None true None "" ""));
    simpl; auto.
Defined.

(** ** Progress of the join *)

(** X15: once the transport of every issued call has answered, the request
    is answered: 200, or 500 with the reason of the first rejection. *)
Theorem answered_when_all_calls_answered t sched :
  (forall i j row c n b,
      t !! i = Some row -> row !! j = Some (Issued c n b) ->
      exists o, In (i, j, o) sched) ->
  exists r,
    responded (run (start t) sched) = Some r
    /\ (r = Response 200 (Text "OK")
        \/ exists e, r = Response 500 (Failure e)
                     /\ first_rejection (order (run (start t) sched)) = Some e).
Proof.
  intros Hall. destruct (run_answers t sched Hall) as (r & Hr).
  exists r. split; [exact Hr|].
  pose proof (reachable_inv t sched) as Hg.
  unfold responded in Hr.
  destruct (whole (run (start t) sched)) as [n| |e] eqn:Hw; inversion Hr; subst.
  - by left.
  - right. exists e. split; [done|]. by rewrite (inv_first _ Hg), Hw.
Qed.

Lemma answered_when_all_calls_answered_witness :
  exists r,
    responded (run (start (pushAll [] two_services [feed_entry]))
                   [(0, 1, Succeeds VNull); (0, 0, Fails (VStr "ECONNREFUSED"))])
    = Some r.
Proof.
  destruct (answered_when_all_calls_answered
              (pushAll [] two_services [feed_entry])
              [(0, 1, Succeeds VNull); (0, 0, Fails (VStr "ECONNREFUSED"))])
    as (r & Hr & _).
  - intros [|i] j row c n b Hi Hj; [|discriminate].
    inversion Hi; subst row. destruct j as [|[|j]]; simpl; eauto; discriminate.
  - eauto.
Defined.

Lemma rejections_row_nil sel i j row :
  (forall d, In d row -> sel d = None) -> rejections_row sel i j row = [].
Proof.
  revert j. induction row as [|d row IH]; intros j H; simpl; [done|].
  rewrite (H d) by (by left). apply IH. intros d' Hd'. apply H. by right.
Qed.

Lemma rejections_from_nil sel k t :
  (forall row d, In row t -> In d row -> sel d = None) ->
  rejections_from sel k t = [].
Proof.
  revert k. induction t as [|row t IH]; intros k H; simpl; [done|].
  rewrite rejections_row_nil, IH; [done| |].
  - intros row' d Hr Hd. apply (H row' d); [by right|done].
  - intros d Hd. apply (H row d); [by left|done].
Qed.

Lemma run_no_rejection t sched : forall g,
  table g = t ->
  first_rejection (order g) = None ->
  (forall i j o row c n,
      In (i, j, o) sched -> t !! i = Some row ->
      row !! j = Some (Issued c n false) -> exists res, o = Succeeds res) ->
  first_rejection (order (run g sched)) = None.
Proof.
  induction sched as [|[[i j] o] sched IH]; intros g Ht Hnone Hok; simpl; [done|].
  apply IH.
  - by rewrite table_callback.
  - unfold callback. destruct (table g !! i) as [row|] eqn:Hi; [|done].
    destruct (row !! j) as [[r|r|c n sup]|] eqn:Hj; try done.
    assert (exists v l, complete c n sup o = (Fulfilled v, l)) as (v & l & ->).
    { destruct sup; [apply complete_suppressed|].
      rewrite Ht in Hi.
      destruct (Hok i j o row c n (or_introl eq_refl) Hi Hj) as (res & ->).
      destruct c; simpl; eauto. }
    unfold deliver. destruct (settled g !! i) as [srow|]; [|done].
    destruct (srow !! j) as [[x|]|]; try done. simpl.
    by rewrite first_rejection_app, Hnone.
  - intros i' j' o' row c n Hin. apply Hok. by right.
Qed.

(** X16: when every matched service can be called, every call is answered,
    and every answer to a service not under test is a success, the request
    is answered 200, whatever the services under test answer. *)
Theorem tolerated_failures_200 t sched :
  (forall row d, In row t -> In d row -> exists c n b, d = Issued c n b) ->
  (forall i j row c n b,
      t !! i = Some row -> row !! j = Some (Issued c n b) ->
      exists o, In (i, j, o) sched) ->
  (forall i j o row c n,
      In (i, j, o) sched -> t !! i = Some row ->
      row !! j = Some (Issued c n false) -> exists res, o = Succeeds res) ->
  responded (run (start t) sched) = Some (Response 200 (Text "OK")).
Proof.
  intros Hissued Hall Hok.
  assert (Hstart : start t = fresh t).
  { unfold start. rewrite !rejections_from_nil; [done| |];
      intros row d Hr Hd; destruct (Hissued row d Hr Hd) as (c & n & b & ->); done. }
  assert (Hnone : first_rejection (order (run (start t) sched)) = None).
  { apply (run_no_rejection t); [|by rewrite Hstart|exact Hok].
    pose proof (table_start t []) as Ht. exact Ht. }
  destruct (run_answers t sched Hall) as (a & Ha).
  pose proof (reachable_inv t sched) as Hg.
  unfold responded in *. destruct (whole (run (start t) sched)) as [n| |r] eqn:Hw.
  - discriminate.
  - reflexivity.
  - rewrite (inv_first _ Hg), Hw in Hnone. discriminate.
Qed.

Lemma tolerated_failures_200_witness :
  responded (run (start (pushAll [] staged_services [feed_entry]))
                 [(0, 0, Fails (VStr "ECONNREFUSED")); (0, 1, Succeeds VNull)])
  = Some (Response 200 (Text "OK")).
Proof.
  apply (tolerated_failures_200
           (pushAll [] staged_services [feed_entry])
           [(0, 0, Fails (VStr "ECONNREFUSED")); (0, 1, Succeeds VNull)]).
  - simpl. intros row d [<-|[]] [<-|[<-|[]]]; eauto.
  - intros [|i] j row c n b Hi Hj; [|discriminate].
    inversion Hi; subst row. destruct j as [|[|j]]; simpl; eauto; discriminate.
  - intros i j o row c n [Heq|[Heq|[]]] Hi Hj; inversion Heq; subst;
      inversion Hi; subst; [discriminate|eauto].
Defined.

Lemma deliver_answer g i j r l a :
  responded g = Some a -> responded (deliver g i j r l) = Some a.
Proof.
  unfold responded, deliver. intros H.
  destruct (settled g !! i) as [row|]; [|done].
  destruct (row !! j) as [[x|]|]; try done. simpl.
  destruct (whole g) as [n| |e]; [discriminate| |];
    destruct (default Done (perItem g !! i)) as [m| |e'];
    try destruct (notify (Waiting m) r); done.
Qed.

Lemma callback_answer g i j o a :
  responded g = Some a -> responded (callback g i j o) = Some a.
Proof.
  intros H. unfold callback. destruct (table g !! i) as [row|]; [|done].
  destruct (row !! j) as [[r|r|c name sup]|]; try done.
  destruct (complete c name sup o). by apply deliver_answer.
Qed.

Lemma run_app g s1 s2 : run g (s1 ++ s2) = run (run g s1) s2.
Proof.
  revert g. induction s1 as [|[[i j] o] s1 IH]; intros g; simpl; [done|apply IH].
Qed.

(** X17: once the request is answered, no later answer of a transport
    changes the answer. *)
Theorem answer_is_final t s1 s2 a :
  responded (run (start t) s1) = Some a ->
  responded (run (start t) (s1 ++ s2)) = Some a.
Proof.
  rewrite run_app. generalize (run (start t) s1). clear s1.
  induction s2 as [|[[i j] o] s2 IH]; intros g H; simpl; [done|].
  by apply IH, callback_answer.
Qed.

Lemma answer_is_final_witness :
  responded (run (start (pushAll [] two_services [feed_entry]))
                 ([(0, 0, Fails (VStr "ECONNREFUSED"))]
                  ++ [(0, 1, Fails (VStr "ETIMEDOUT"))]))
  = Some (Response 500 (Failure (Remote (VStr "ECONNREFUSED")))).
Proof.
  apply (answer_is_final (pushAll [] two_services [feed_entry])
           [(0, 0, Fails (VStr "ECONNREFUSED"))]
           [(0, 1, Fails (VStr "ETIMEDOUT"))]).
  reflexivity.
Defined.

Lemma pending_insert rows i (row row' : list (option result)) :
  rows !! i = Some row -> S (pending_row row') = pending_row row ->
  S (list_sum (map pending_row (<[i := row']> rows)))
  = list_sum (map pending_row rows).
Proof.
  revert i. induction rows as [|r0 rows IH]; intros [|i] Hi Hrow; simpl in *;
    try discriminate.
  - inversion Hi; subst. lia.
  - rewrite <- (IH i Hi Hrow). lia.
Qed.

Lemma deliver_count g i j r l :
  pending (deliver g i j r l) + length (order (deliver g i j r l))
  = pending g + length (order g).
Proof.
  unfold deliver, pending.
  destruct (settled g !! i) as [row|] eqn:Hi; [|done].
  destruct (row !! j) as [[x|]|] eqn:Hj; try done. simpl.
  rewrite length_app. simpl.
  pose proof (pending_insert (settled g) i row (<[j := Some r]> row) Hi
                (pending_row_insert row j r Hj)). lia.
Qed.

Lemma callback_count g i j o :
  pending (callback g i j o) + length (order (callback g i j o))
  = pending g + length (order g).
Proof.
  unfold callback. destruct (table g !! i) as [row|]; [|done].
  destruct (row !! j) as [[r|r|c name sup]|]; try done.
  destruct (complete c name sup o). apply deliver_count.
Qed.

Lemma reject_all_count l : forall g,
  pending (reject_all g l) + length (order (reject_all g l))
  = pending g + length (order g).
Proof.
  induction l as [|[[i j] r] l IH]; intros g; simpl; [done|].
  by rewrite IH, deliver_count.
Qed.

Lemma run_count sched : forall g,
  pending (run g sched) + length (order (run g sched))
  = pending g + length (order g).
Proof.
  induction sched as [|[[i j] o] sched IH]; intros g; simpl; [done|].
  by rewrite IH, callback_count.
Qed.

Lemma fresh_count t : pending (fresh t) = length (concat t).
Proof.
  unfold pending, fresh. cbn [settled]. rewrite map_map.
  induction t as [|row t IH]; simpl; [done|].
  by rewrite length_app, pending_row_fresh, IH.
Qed.

Lemma deliver_nodup g i j r l :
  inv g -> NoDup (map position (order g)) ->
  NoDup (map position (order (deliver g i j r l))).
Proof.
  intros Hg Hnd. destruct (promise_at g i j) as [[x|]|] eqn:Hp;
    try (rewrite deliver_idle; [done|congruence]).
  unfold promise_at in Hp. unfold deliver.
  destruct (settled g !! i) as [row|] eqn:Hi; [|done]. rewrite Hp. simpl.
  rewrite map_app. simpl. apply NoDup_app. split; [exact Hnd|].
  split; [|apply NoDup_singleton].
  intros p Hin Hp'. apply list_elem_of_singleton in Hp'. subst p.
  apply list_elem_of_In, in_map_iff in Hin as ([[i' j'] r'] & Heq & Hin).
  unfold position in Heq. simpl in Heq. inversion Heq; subst.
  apply (inv_order _ Hg) in Hin as (row' & Hi' & Hj').
  rewrite Hi in Hi'. inversion Hi'; subst. congruence.
Qed.

Lemma reject_all_nodup l : forall g,
  inv g -> NoDup (map position (order g)) ->
  NoDup (map position (order (reject_all g l))).
Proof.
  induction l as [|[[i j] r] l IH]; intros g Hg Hnd; simpl; [done|].
  apply IH; [by apply deliver_inv|by apply deliver_nodup].
Qed.

Lemma run_nodup sched : forall g,
  inv g -> NoDup (map position (order g)) ->
  NoDup (map position (order (run g sched))).
Proof.
  induction sched as [|[[i j] o] sched IH]; intros g Hg Hnd; simpl; [done|].
  apply IH; [by apply callback_inv|].
  unfold callback. destruct (table g !! i) as [row|]; [|done].
  destruct (row !! j) as [[r|r|c name sup]|]; try done.
  destruct (complete c name sup o). by apply deliver_nodup.
Qed.

(** X18: no promise settles twice, and at every moment the pending and the
    settled promises together are all the promises of the request. *)
Theorem settled_once t sched :
  NoDup (map position (order (run (start t) sched)))
  /\ pending (run (start t) sched) + length (order (run (start t) sched))
     = length (concat t).
Proof.
  split.
  - apply run_nodup; [apply start_inv|]. unfold start.
    apply reject_all_nodup; [apply reject_all_inv, fresh_inv|].
    apply reject_all_nodup; [apply fresh_inv|]. simpl. apply NoDup_nil_2.
  - unfold start. rewrite run_count, !reject_all_count, fresh_count.
    simpl. lia.
Qed.
